(** * LLM evaluator backend: metrics engine and analytics aggregation

    A shallow embedding of [app/evaluation/metrics.py] and
    [app/analytics/cruds/analytics.py], and the properties their
    specification states about them.

    Modelling conventions.
    - A Python [float] is an exact rational ([Q]); equality of floats is
      [Qeq] ([==]).  Every statement below is about the rational value the
      Python expression denotes, not about binary64 rounding.
    - A Python [str] is a [string] of bytes; [str.lower] acts on the ASCII
      letters.
    - A Python [set] is a [gset]; [len] of a set is [size].
    - Python exceptions are the left summand of an error monad; [/] raises
      [ZeroDivisionError] on a zero divisor, arithmetic and [round] on
      [None] raise [TypeError].
    - NLTK's [word_tokenize], [sent_tokenize] and the English stop-word list
      are external resources: the engine is parameterised by them. *)

From Stdlib Require Import QArith Qround Qabs Lqa ZArith Lia Ascii String.
From stdpp Require Import gmap strings list.

(** ** Python runtime fragments *)

Module Py.

Inductive exn := TypeError | ZeroDivisionError.

Definition M (A : Type) : Type := exn + A.

Definition ret {A} (a : A) : M A := inr a.
Definition raise {A} (e : exn) : M A := inl e.
Definition bind {A B} (m : M A) (k : A -> M B) : M B :=
  match m with
  | inl e => inl e
  | inr a => k a
  end.

Declare Scope py_scope.
Delimit Scope py_scope with py.
Notation "x <- m ;; k" := (bind m (fun x => k))
  (at level 100, m at next level, right associativity) : py_scope.

(** [for x in xs: body(x)], collecting what each iteration produces and
    stopping at the first exception. *)
Fixpoint for_each {A B} (body : A -> M B) (xs : list A) : M (list B) :=
  match xs with
  | [] => ret []
  | x :: xs' =>
      (y <- body x ;;
       ys <- for_each body xs' ;;
       ret (y :: ys))%py
  end.

(** Float true division [a / b]. *)
Definition truediv (a b : Q) : M Q :=
  if Qeq_bool b 0 then raise ZeroDivisionError else ret (a / b)%Q.

(** [int] to [float]. *)
Definition float_of_nat (n : nat) : Q := inject_Z (Z.of_nat n).

(** [x or ""] for an optional string: [None] and [""] are falsy. *)
Definition or_str (x : option string) (d : string) : string :=
  match x with
  | Some (String _ _ as s) => s
  | _ => d
  end.

(** [str.lower] on ASCII. *)
Definition lower_ascii (c : ascii) : ascii :=
  let n := nat_of_ascii c in
  if (65 <=? n) && (n <=? 90) then ascii_of_nat (n + 32) else c.

Fixpoint lower (s : string) : string :=
  match s with
  | EmptyString => EmptyString
  | String c s' => String (lower_ascii c) (lower s')
  end.

(** [s.endswith(suffix)]. *)
Definition endswith (s suffix : string) : bool :=
  let n := String.length s in
  let m := String.length suffix in
  (m <=? n) && String.eqb (substring (n - m) m s) suffix.

(** [ch in chars] for a one-character [ch]. *)
Definition char_in (ch : ascii) (chars : string) : bool :=
  existsb (Ascii.eqb ch) (list_ascii_of_string chars).

(** [l[i:j]] for non-negative indices. *)
Definition slice {A} (l : list A) (i j : nat) : list A :=
  take (j - i) (drop i l).

(** [range(n)]; the argument of the source may be negative, in which case
    the range is empty: callers pass a truncated subtraction. *)
Definition range (n : nat) : list nat := seq 0 n.

(** [round(x, 2)]: to the nearest multiple of 1/100, ties to even. *)
Definition round_half_even (x : Q) : Z :=
  let f := Qfloor x in
  let d := (x - inject_Z f)%Q in
  match (d ?= 1 # 2)%Q with
  | Lt => f
  | Gt => (f + 1)%Z
  | Eq => if Z.even f then f else (f + 1)%Z
  end.

Definition round2 (x : Q) : Q :=
  (inject_Z (round_half_even (x * 100)) / 100)%Q.

(** [round(x, 2)] where [x] may be [None]. *)
Definition round2_opt (x : option Q) : M Q :=
  match x with
  | Some v => ret (round2 v)
  | None => raise TypeError
  end.

(** [min(vals)] and [max(vals)] on a non-empty list: the first extremal
    element wins. *)
Definition min_list (v : Q) (vs : list Q) : Q :=
  fold_left (fun m x => if Qle_bool m x then m else x) vs v.
Definition max_list (v : Q) (vs : list Q) : Q :=
  fold_left (fun m x => if Qle_bool x m then m else x) vs v.

End Py.

Import Py.

(** ** [app/evaluation/metrics.py] *)

Module Metrics.

Definition vowels : string := "aeiouy".

(** One iteration of the scan in [_count_syllables]; the loop state is
    [(count, prev_is_vowel)]. *)
Definition syllable_step (st : nat * bool) (ch : ascii) : nat * bool :=
  let '(count, prev_is_vowel) := st in
  let is_vowel := char_in ch vowels in
  (if is_vowel && negb prev_is_vowel then count + 1 else count, is_vowel).

Definition _count_syllables (word : string) : nat :=
  let word := lower word in
  let '(count, _) :=
    fold_left syllable_step (list_ascii_of_string word) (0, false) in
  let count :=
    if endswith word "e" && (1 <? count) then count - 1 else count in
  Nat.max count 1.

Definition _flesch_kincaid_grade
    (num_sentences num_words num_syllables : Z) : M Q :=
  if ((num_sentences <=? 0) || (num_words <=? 0))%Z then ret 0%Q
  else
    (wps <- truediv (inject_Z num_words) (inject_Z num_sentences) ;;
     spw <- truediv (inject_Z num_syllables) (inject_Z num_words) ;;
     ret (0.39 * wps + 11.8 * spw - 15.59)%Q)%py.

(** The list comprehension of [_ratio_for_n]. *)
Definition ngrams_of (tokens : list string) (n : nat) : list (list string) :=
  (fun i => slice tokens i (i + n)) <$> range (length tokens + 1 - n).

Definition _ratio_for_n (tokens : list string) (n : nat) : M Q :=
  if length tokens <? n then ret 0%Q
  else
    let ngrams := ngrams_of tokens n in
    let total := length ngrams in
    if total =? 0 then ret 0%Q
    else
      let unique := size (list_to_set ngrams : gset (list string)) in
      let repeats := (Z.of_nat total - Z.of_nat unique)%Z in
      (r <- truediv (inject_Z repeats) (float_of_nat total) ;;
       ret (r * 100)%Q)%py.

Definition _repetition_penalty (tokens : list string) : M Q :=
  (r3 <- _ratio_for_n tokens 3 ;;
   if negb (Qle_bool r3 0) || (50 <=? length tokens) then ret r3
   else _ratio_for_n tokens 2)%py.

Record MetricRecord := {
  lexical_diversity : Q;
  query_coverage : Q;
  flesch_kincaid_grade : Q;
  repetition_penalty : Q
}.

(** The record of the zero-token short-circuit. *)
Definition zero_record : MetricRecord :=
  {| lexical_diversity := 0; query_coverage := 0;
     flesch_kincaid_grade := 0; repetition_penalty := 0 |}.

Section Engine.

(** NLTK resources. *)
Variable word_tokenize : string -> list string.
Variable sent_tokenize : string -> list string.
Variable stopwords_english : list string.

(** The tokens of the response, as [calculate_metrics] computes them. *)
Definition response_tokens (response : option string) : list string :=
  word_tokenize (lower (or_str response "")).

(** The prompt keywords of [calculate_metrics]: prompt words that are
    not stop words. *)
Definition prompt_keywords_of (prompt : option string) : gset string :=
  let prompt_words : gset string :=
    list_to_set (word_tokenize (lower (or_str prompt ""))) in
  let stop_words : gset string := list_to_set stopwords_english in
  prompt_words ∖ stop_words.

Definition calculate_metrics (prompt response : option string)
    : M MetricRecord :=
  let text := or_str response "" in
  let tokens := word_tokenize (lower text) in
  if length tokens =? 0 then
    ret {| lexical_diversity := 0;
           query_coverage := 0;
           flesch_kincaid_grade := 0;
           repetition_penalty := 0 |}
  else
    (ttr <- truediv (float_of_nat (size (list_to_set tokens : gset string)))
                    (float_of_nat (length tokens)) ;;
     let lexical_diversity := (ttr * 100)%Q in
     let prompt_keywords := prompt_keywords_of prompt in
     let response_words : gset string := list_to_set tokens in
     let covered := prompt_keywords ∩ response_words in
     query_coverage <-
       (if negb (size prompt_keywords =? 0) then
          c <- truediv (float_of_nat (size covered))
                       (float_of_nat (size prompt_keywords)) ;;
          ret (c * 100)%Q
        else ret 100%Q) ;;
     let sentences := sent_tokenize text in
     let num_sentences := Nat.max (length sentences) 1 in
     let num_words := length tokens in
     let num_syllables := sum_list (_count_syllables <$> tokens) in
     fk_grade <- _flesch_kincaid_grade (Z.of_nat num_sentences)
                   (Z.of_nat num_words) (Z.of_nat num_syllables) ;;
     repetition <- _repetition_penalty tokens ;;
     ret {| lexical_diversity := lexical_diversity;
            query_coverage := query_coverage;
            flesch_kincaid_grade := fk_grade;
            repetition_penalty := repetition |})%py.

End Engine.

(** A reference instance of the external resources, used to run the
    engine on concrete texts: words are the maximal runs of non-blank
    characters, sentences end at a full stop, and the stop words are a
    few of NLTK's English list. *)
Fixpoint split_on (sep : ascii) (cur : string) (s : string) : list string :=
  match s with
  | EmptyString => if String.eqb cur "" then [] else [cur]
  | String c s' =>
      if Ascii.eqb c sep then
        (if String.eqb cur "" then [] else [cur]) ++ split_on sep "" s'
      else split_on sep (cur +:+ String c "") s'
  end.

Definition ws_word_tokenize (s : string) : list string := split_on " " "" s.
Definition dot_sent_tokenize (s : string) : list string := split_on "." "" s.
Definition some_stopwords : list string :=
  ["i"; "me"; "my"; "we"; "our"; "you"; "he"; "she"; "it"; "they";
   "what"; "which"; "who"; "this"; "that"; "am"; "is"; "are"; "was";
   "be"; "have"; "has"; "do"; "does"; "a"; "an"; "the"; "and"; "but";
   "if"; "or"; "of"; "at"; "by"; "for"; "with"; "to"; "from"; "in";
   "on"; "not"; "no"; "so"; "too"; "very"; "can"; "will"].

Definition run_metrics : option string -> option string -> M MetricRecord :=
  calculate_metrics ws_word_tokenize dot_sent_tokenize some_stopwords.

End Metrics.

Import Metrics.

(** ** [app/analytics/cruds/analytics.py] *)

Module Evaluation.

(** A row of the [evaluations] table; every column is [nullable=False]. *)
Record t := {
  id : Z;
  prompt : string;
  model : string;
  temperature : Q;
  top_p : Q;
  lexical_diversity : Q;
  query_coverage : Q;
  flesch_kincaid_grade : Q;
  repetition_penalty : Q
}.

End Evaluation.

Module Analytics.

(** *** The three aggregate queries

    [GROUP BY] yields one row per distinct key, here in the order in which
    the keys first occur; [func.avg] is the arithmetic mean of the group
    and SQL [NULL] ([None]) over no rows. *)

Definition sum_Q (vals : list Q) : Q := foldr Qplus 0%Q vals.

Definition sql_avg (vals : list Q) : option Q :=
  match vals with
  | [] => None
  | _ => Some (sum_Q vals / float_of_nat (length vals))%Q
  end.

Fixpoint add_to_group {K A} (same : K -> K -> bool) (k : K) (r : A)
    (groups : list (K * list A)) : list (K * list A) :=
  match groups with
  | [] => [(k, [r])]
  | (k', rs) :: groups' =>
      if same k' k then (k', rs ++ [r]) :: groups'
      else (k', rs) :: add_to_group same k r groups'
  end.

Definition sql_group_by {K A} (same : K -> K -> bool) (key : A -> K)
    (rows : list A) : list (K * list A) :=
  fold_left (fun groups r => add_to_group same (key r) r groups) rows [].

(** The averaged columns shared by both grouped queries. *)
Record Averages := {
  avg_lexical_diversity : option Q;
  avg_query_coverage : option Q;
  avg_fk_grade : option Q;
  avg_repetition_penalty : option Q
}.

Definition averages_of (rows : list Evaluation.t) : Averages :=
  {| avg_lexical_diversity := sql_avg (Evaluation.lexical_diversity <$> rows);
     avg_query_coverage := sql_avg (Evaluation.query_coverage <$> rows);
     avg_fk_grade := sql_avg (Evaluation.flesch_kincaid_grade <$> rows);
     avg_repetition_penalty :=
       sql_avg (Evaluation.repetition_penalty <$> rows) |}.

(** The non-averaged columns of a scatter row. *)
Record ScatterGroup := {
  model : string;
  temperature : Q;
  top_p : Q;
  run_count : nat
}.

(** A result row as a dict: the group columns and the averages. *)
Record AggregateRow (G : Type) := {
  group : G;
  averages : Averages
}.
Arguments group {G} _.
Arguments averages {G} _.

Definition scatter_key (e : Evaluation.t) : string * Q * Q :=
  (Evaluation.model e, Evaluation.temperature e, Evaluation.top_p e).

Definition same_scatter_key (a b : string * Q * Q) : bool :=
  let '(m1, t1, p1) := a in
  let '(m2, t2, p2) := b in
  String.eqb m1 m2 && Qeq_bool t1 t2 && Qeq_bool p1 p2.

Definition query_scatter (db : list Evaluation.t)
    : list (AggregateRow ScatterGroup) :=
  (fun '((m, t, p), rows) =>
     {| group := {| model := m; temperature := t; top_p := p;
                    run_count := length rows |};
        averages := averages_of rows |})
  <$> sql_group_by same_scatter_key scatter_key db.

Definition query_model_comparison (db : list Evaluation.t)
    : list (AggregateRow string) :=
  (fun '(m, rows) => {| group := m; averages := averages_of rows |})
  <$> sql_group_by String.eqb Evaluation.model db.

Definition query_overall (db : list Evaluation.t) : Averages :=
  averages_of db.

(** *** Normalization *)

Definition _min_max (vals : list (option Q)) : Q * Q :=
  let vals := omap id vals in
  match vals with
  | [] => (0, 0)%Q
  | v :: vs => (min_list v vs, max_list v vs)
  end.

Definition epsilon : Q := 1e-9.

(** [a - b] where the left or the right operand may be [None]. *)
Definition sub_l (a : option Q) (b : Q) : M Q :=
  match a with
  | Some x => ret (x - b)%Q
  | None => raise TypeError
  end.
Definition sub_r (a : Q) (b : option Q) : M Q :=
  match b with
  | Some x => ret (a - x)%Q
  | None => raise TypeError
  end.

Definition _norm_high_is_better (x : option Q) (vmin vmax : Q) : M Q :=
  let rng :=
    if negb (Qeq_bool (vmax - vmin) 0) then (vmax - vmin)%Q else epsilon in
  (d <- sub_l x vmin ;;
   truediv (100 * d) rng)%py.

Definition _norm_low_is_better (x : option Q) (vmin vmax : Q) : M Q :=
  let rng :=
    if negb (Qeq_bool (vmax - vmin) 0) then (vmax - vmin)%Q else epsilon in
  (d <- sub_r vmax x ;;
   truediv (100 * d) rng)%py.

(** The four [norm_*] keys the loop adds to a row. *)
Record Norms := {
  norm_lexical_diversity : Q;
  norm_query_coverage : Q;
  norm_fk_grade : Q;
  norm_repetition_penalty : Q
}.

Record NormalizedRow (G : Type) := {
  row : AggregateRow G;
  norms : Norms
}.
Arguments row {G} _.
Arguments norms {G} _.

(** The body of [for row in scatter:] (and of [for row in compare:]). *)
Definition normalize_row {G} (fk_min fk_max rp_min rp_max : Q)
    (r : AggregateRow G) : M (NormalizedRow G) :=
  let a := averages r in
  (nld <- round2_opt (avg_lexical_diversity a) ;;
   nqc <- round2_opt (avg_query_coverage a) ;;
   fk <- _norm_high_is_better (avg_fk_grade a) fk_min fk_max ;;
   rp <- _norm_low_is_better (avg_repetition_penalty a) rp_min rp_max ;;
   ret {| row := r;
          norms := {| norm_lexical_diversity := nld;
                      norm_query_coverage := nqc;
                      norm_fk_grade := round2 fk;
                      norm_repetition_penalty := round2 rp |} |})%py.

(** The block under [if scatter:]; the source repeats it verbatim under
    [if compare:]. *)
Definition normalize_view {G} (rows : list (AggregateRow G))
    : M (list (NormalizedRow G)) :=
  match rows with
  | [] => ret []
  | _ =>
      let ld_vals := (fun r => avg_lexical_diversity (averages r)) <$> rows in
      let qc_vals := (fun r => avg_query_coverage (averages r)) <$> rows in
      let fk_vals := (fun r => avg_fk_grade (averages r)) <$> rows in
      let rp_vals := (fun r => avg_repetition_penalty (averages r)) <$> rows in
      (* the percent metrics are passed through: their ranges are unused *)
      let '(ld_min, ld_max) := _min_max ld_vals in
      let '(qc_min, qc_max) := _min_max qc_vals in
      let '(fk_min, fk_max) := _min_max fk_vals in
      let '(rp_min, rp_max) := _min_max rp_vals in
      for_each (normalize_row fk_min fk_max rp_min rp_max) rows
  end.

Record Kpi := {
  overall_avg_lexical_diversity : Q;
  overall_avg_query_coverage : Q;
  overall_avg_fk_grade : Q;
  overall_avg_repetition_penalty : Q
}.

(** [round(v, 2) if v else 0]: [None] and [0.0] are falsy. *)
Definition kpi_field (v : option Q) : Q :=
  match v with
  | Some x => if Qeq_bool x 0 then 0%Q else round2 x
  | None => 0%Q
  end.

Record Payload := {
  scatter_data : list (NormalizedRow ScatterGroup);
  model_comparison : list (NormalizedRow string);
  kpi : Kpi
}.

Definition get_analytics (db : list Evaluation.t) : M Payload :=
  let overall := query_overall db in
  (scatter <- normalize_view (query_scatter db) ;;
   compare <- normalize_view (query_model_comparison db) ;;
   ret {| scatter_data := scatter;
          model_comparison := compare;
          kpi := {| overall_avg_lexical_diversity :=
                      kpi_field (avg_lexical_diversity overall);
                    overall_avg_query_coverage :=
                      kpi_field (avg_query_coverage overall);
                    overall_avg_fk_grade :=
                      kpi_field (avg_fk_grade overall);
                    overall_avg_repetition_penalty :=
                      kpi_field (avg_repetition_penalty overall) |} |})%py.

(** A stored row carrying the given key and metrics. *)
Definition mk_eval (i : Z) (m : string) (t p ld qc fk rp : Q)
    : Evaluation.t :=
  {| Evaluation.id := i; Evaluation.prompt := "p"; Evaluation.model := m;
     Evaluation.temperature := t; Evaluation.top_p := p;
     Evaluation.lexical_diversity := ld; Evaluation.query_coverage := qc;
     Evaluation.flesch_kincaid_grade := fk;
     Evaluation.repetition_penalty := rp |}.

End Analytics.

Import Analytics.

(** ** Specification-side definitions *)

Module Spec.

(** Vowel groups, by position: position [i] opens a group when it holds a
    vowel and is not preceded by one. *)
Definition is_vowel_at (cs : list ascii) (i : nat) : bool :=
  match cs !! i with
  | Some c => char_in c vowels
  | None => false
  end.

Definition opens_group (prev0 : bool) (cs : list ascii) (i : nat) : bool :=
  is_vowel_at cs i &&
  negb (match i with 0 => prev0 | S j => is_vowel_at cs j end).

Definition groups_after (prev0 : bool) (cs : list ascii) : nat :=
  length (List.filter (opens_group prev0 cs) (seq 0 (length cs))).

Definition vowel_groups (word : string) : nat :=
  groups_after false (list_ascii_of_string word).

(** The contiguous windows of [n] items of a sequence, left to right. *)
Fixpoint windows {A} (n : nat) (l : list A) : list (list A) :=
  match l with
  | [] => []
  | _ :: l' => if n <=? length l then take n l :: windows n l' else []
  end.

(** [100 * (total - unique) / total] over the [n]-grams of a token
    sequence. *)
Definition repeat_ratio (n : nat) (tokens : list string) : Q :=
  let total := length (windows n tokens) in
  let unique := length (remove_dups (windows n tokens)) in
  (100 * inject_Z (Z.of_nat total - Z.of_nat unique)
   / inject_Z (Z.of_nat total))%Q.

(** [100 * |unique tokens| / |tokens|]. *)
Definition type_token_ratio (tokens : list string) : Q :=
  (100 * inject_Z (Z.of_nat (length (remove_dups tokens)))
   / inject_Z (Z.of_nat (length tokens)))%Q.

(** A value with at most two decimal places: a multiple of 1/100. *)
Definition two_decimals (q : Q) : Prop :=
  exists k : Z, (q == inject_Z k / 100)%Q.

(** Minimum and maximum of a list of values. *)
Definition is_min (m : Q) (l : list Q) : Prop :=
  Exists (Qeq m) l /\ Forall (fun y => (m <= y)%Q) l.
Definition is_max (m : Q) (l : list Q) : Prop :=
  Exists (Qeq m) l /\ Forall (fun y => (y <= m)%Q) l.

(** Every average of a row is a number (not [None]). *)
Definition measured (a : Averages) : Prop :=
  is_Some (avg_lexical_diversity a) /\ is_Some (avg_query_coverage a)
  /\ is_Some (avg_fk_grade a) /\ is_Some (avg_repetition_penalty a).

(** The group averages of one metric over a view. *)
Definition column {G} (f : Averages -> option Q)
    (view : list (NormalizedRow G)) : list Q :=
  omap (fun o => f (averages (row o))) view.

(** Min-max rescaling, rounded: what a view's [norm_fk_grade] and
    [norm_repetition_penalty] are when the range is not degenerate, and 0
    when it is. *)
Definition rescaled {G} (view : list (NormalizedRow G)) : Prop :=
  forall o, o ∈ view ->
    (forall x lo hi,
       avg_fk_grade (averages (row o)) = Some x ->
       is_min lo (column avg_fk_grade view) ->
       is_max hi (column avg_fk_grade view) ->
       (norm_fk_grade (norms o) ==
        if Qeq_bool lo hi then 0
        else round2 (100 * (x - lo) / (hi - lo)))%Q)
    /\ (forall x lo hi,
          avg_repetition_penalty (averages (row o)) = Some x ->
          is_min lo (column avg_repetition_penalty view) ->
          is_max hi (column avg_repetition_penalty view) ->
          (norm_repetition_penalty (norms o) ==
           if Qeq_bool lo hi then 0
           else round2 (100 * (hi - x) / (hi - lo)))%Q).

(** All four [norm_*] fields, and all four [kpi] fields, have two
    decimals. *)
Definition rounded_norms (n : Norms) : Prop :=
  two_decimals (norm_lexical_diversity n)
  /\ two_decimals (norm_query_coverage n)
  /\ two_decimals (norm_fk_grade n)
  /\ two_decimals (norm_repetition_penalty n).

Definition rounded_kpi (k : Kpi) : Prop :=
  two_decimals (overall_avg_lexical_diversity k)
  /\ two_decimals (overall_avg_query_coverage k)
  /\ two_decimals (overall_avg_fk_grade k)
  /\ two_decimals (overall_avg_repetition_penalty k).

(** What the normalization loop writes into a row [r] of a view whose
    [_min_max] pairs are [(fk_min, fk_max)] and [(rp_min, rp_max)]: each
    [norm_*] is [round] of a value computed from the unrounded averages. *)
Definition normalized_with {G} (fk_min fk_max rp_min rp_max : Q)
    (r : AggregateRow G) (o : NormalizedRow G) : Prop :=
  row o = r
  /\ exists ld qc fk rp,
      averages r = {| avg_lexical_diversity := Some ld;
                      avg_query_coverage := Some qc;
                      avg_fk_grade := Some fk;
                      avg_repetition_penalty := Some rp |}
      /\ norms o =
         {| norm_lexical_diversity := round2 ld;
            norm_query_coverage := round2 qc;
            norm_fk_grade :=
              round2 (100 * (fk - fk_min)
                      / (if negb (Qeq_bool (fk_max - fk_min) 0)
                         then fk_max - fk_min else epsilon));
            norm_repetition_penalty :=
              round2 (100 * (rp_max - rp)
                      / (if negb (Qeq_bool (rp_max - rp_min) 0)
                         then rp_max - rp_min else epsilon)) |}%Q.

Definition normalized_from {G} (rows : list (AggregateRow G))
    (view : list (NormalizedRow G)) : Prop :=
  let fk_vals := (fun r => avg_fk_grade (averages r)) <$> rows in
  let rp_vals := (fun r => avg_repetition_penalty (averages r)) <$> rows in
  Forall2 (normalized_with (_min_max fk_vals).1 (_min_max fk_vals).2
                           (_min_max rp_vals).1 (_min_max rp_vals).2)
          rows view.

(** The scenario of two groups whose [flesch_kincaid_grade] averages are
    4.0 and 10.0. *)
Definition two_groups_4_10 {G} (view : list (NormalizedRow G)) : Prop :=
  forall o1 o2 x1 x2,
    view = [o1; o2] ->
    avg_fk_grade (averages (row o1)) = Some x1 ->
    avg_fk_grade (averages (row o2)) = Some x2 ->
    (x1 == 4)%Q -> (x2 == 10)%Q ->
    (norm_fk_grade (norms o1) == 0)%Q
    /\ (norm_fk_grade (norms o2) == 100)%Q.

(** Tables used to run the aggregation. *)
Definition db_one_group : list Evaluation.t :=
  [mk_eval 1 "gemini" 0.5 0.9 (1 # 3) 50 4 10;
   mk_eval 2 "gemini" 0.5 0.9 (1 # 3) 50 6 30].

Definition db_two_groups : list Evaluation.t :=
  [mk_eval 1 "gemini" 0.2 0.9 80 50 4 10;
   mk_eval 2 "gemini" 0.7 0.9 70 60 10 30].

Definition db_three_groups : list Evaluation.t :=
  [mk_eval 1 "gemini" 0.2 0.9 80 50 0 10;
   mk_eval 2 "gemini" 0.5 0.9 70 60 1 30;
   mk_eval 3 "gemini" 0.7 0.9 70 60 3 30].

End Spec.

Import Spec.

(** ** [generate_mock_data.py] *)

Module MockData.

(** [max(a, b)] and [min(a, b)]: the second argument is returned only when
    it is strictly better. *)
Definition max2 (a b : Q) : Q := if Qle_bool b a then a else b.
Definition min2 (a b : Q) : Q := if Qle_bool a b then a else b.

Definition _clip (val lo hi : Q) : Q := max2 lo (min2 hi val).

(** The three helpers nested in this file's [calculate_metrics]. *)
Definition _count_syllables (word : string) : nat :=
  let word := lower word in
  let '(count, _) :=
    fold_left
      (fun (st : nat * bool) (ch : ascii) =>
         let '(count, prev) := st in
         let is_vowel := char_in ch "aeiouy" in
         (if is_vowel && negb prev then count + 1 else count, is_vowel))
      (list_ascii_of_string word) (0, false) in
  let count :=
    if endswith word "e" && (1 <? count) then count - 1 else count in
  Nat.max count 1.

Definition _flesch_kincaid_grade
    (num_sentences num_words num_syllables : Z) : M Q :=
  if ((num_sentences <=? 0) || (num_words <=? 0))%Z then ret 0%Q
  else
    (wps <- truediv (inject_Z num_words) (inject_Z num_sentences) ;;
     spw <- truediv (inject_Z num_syllables) (inject_Z num_words) ;;
     ret (0.39 * wps + 11.8 * spw - 15.59)%Q)%py.

Definition _repetition_penalty (tokens : list string) (n : nat) : M Q :=
  if length tokens <? n then ret 0%Q
  else
    let ngrams := (fun i => slice tokens i (i + n))
                  <$> range (length tokens + 1 - n) in
    let total := length ngrams in
    let unique := size (list_to_set ngrams : gset (list string)) in
    let repeats := (Z.of_nat total - Z.of_nat unique)%Z in
    if 0 <? total then
      (r <- truediv (inject_Z repeats) (float_of_nat total) ;;
       ret (r * 100)%Q)%py
    else ret 0%Q.

Section Engine.

Variable word_tokenize : string -> list string.
Variable sent_tokenize : string -> list string.
Variable stopwords_english : list string.

(** The arguments are strings, on which [str(...)] is the identity. *)
Definition calculate_metrics (prompt response : string) : M MetricRecord :=
  let words := word_tokenize (lower response) in
  if length words =? 0 then
    ret {| lexical_diversity := 0; query_coverage := 0;
           flesch_kincaid_grade := 0; repetition_penalty := 0 |}
  else
    (lexical_diversity <-
       (if negb (length words =? 0) then
          d <- truediv (float_of_nat (size (list_to_set words : gset string)))
                       (float_of_nat (length words)) ;;
          ret (d * 100)%Q
        else ret 0%Q) ;;
     let prompt_words : gset string :=
       list_to_set (word_tokenize (lower prompt)) in
     let stop_words : gset string := list_to_set stopwords_english in
     let prompt_keywords := prompt_words ∖ stop_words in
     let response_words : gset string := list_to_set words in
     let covered_keywords := prompt_keywords ∩ response_words in
     query_coverage <-
       (if negb (size prompt_keywords =? 0) then
          c <- truediv (float_of_nat (size covered_keywords))
                       (float_of_nat (size prompt_keywords)) ;;
          ret (c * 100)%Q
        else ret 100%Q) ;;
     let sentence_count := length (sent_tokenize response) in
     let total_chars := sum_list (String.length <$> words) in
     avg_word_length <-
       (if negb (length words =? 0) then
          truediv (float_of_nat total_chars) (float_of_nat (length words))
        else ret 0%Q) ;;
     let num_sentences := Nat.max (length (sent_tokenize response)) 1 in
     let num_words := length words in
     let num_syllables := sum_list (_count_syllables <$> words) in
     fk_grade <- _flesch_kincaid_grade (Z.of_nat num_sentences)
                   (Z.of_nat num_words) (Z.of_nat num_syllables) ;;
     rep_penalty <- _repetition_penalty words 3 ;;
     ret {| lexical_diversity := round2 lexical_diversity;
            query_coverage := round2 query_coverage;
            flesch_kincaid_grade := round2 fk_grade;
            repetition_penalty := round2 rep_penalty |})%py.

End Engine.

(** *** The script's effects

    The script draws from the [random] module's generator and writes a CSV
    file; a program is a function of that state which may end in an
    exception. *)

Record CsvRow := {
  csv_prompt : string;
  csv_model : string;
  csv_temperature : Q;
  csv_top_p : Q;
  csv_metrics : MetricRecord
}.

Inductive CsvLine :=
| HeaderLine (fieldnames : list string)
| DataLine (r : CsvRow).

Section Script.

(** The generator's state and [random.random()]. *)
Variable rng : Type.
Variable random : rng -> Q * rng.

Record World := {
  gen : rng;
  file : list CsvLine
}.

Definition Prog (A : Type) : Type := World -> M A * World.

Definition pret {A} (a : A) : Prog A := fun w => (inr a, w).
Definition pbind {A B} (c : Prog A) (k : A -> Prog B) : Prog B :=
  fun w =>
    match c w with
    | (inr a, w') => k a w'
    | (inl e, w') => (inl e, w')
    end.
Definition lift {A} (m : M A) : Prog A := fun w => (m, w).

Declare Scope prog_scope.
Delimit Scope prog_scope with prog.
Notation "x <- m ;; k" := (pbind m (fun x => k))
  (at level 100, m at next level, right associativity) : prog_scope.

Fixpoint for_ {A} (xs : list A) (body : A -> Prog unit) : Prog unit :=
  match xs with
  | [] => pret tt
  | x :: xs' => (_ <- body x ;; for_ xs' body)%prog
  end.

(** [random.uniform(a, b)] is [a + (b - a) * random()]. *)
Definition uniform (a b : Q) : Prog Q :=
  fun w =>
    let '(u, g) := random (gen w) in
    (inr (a + (b - a) * u)%Q, {| gen := g; file := file w |}).

(** [open(output_file, "w")] empties the file. *)
Definition open_w : Prog unit :=
  fun w => (inr tt, {| gen := gen w; file := [] |}).
Definition writeheader (fieldnames : list string) : Prog unit :=
  fun w => (inr tt, {| gen := gen w;
                       file := file w ++ [HeaderLine fieldnames] |}).
Definition writerow (r : CsvRow) : Prog unit :=
  fun w => (inr tt, {| gen := gen w; file := file w ++ [DataLine r] |}).

Definition perturb_metrics (base : MetricRecord) (temperature top_p : Q)
    : Prog MetricRecord :=
  let t := temperature in
  let p := top_p in
  let dt := (t - 0.5)%Q in
  let dp := (p - 0.5)%Q in
  (n_ld <- uniform (-2.0) 2.0 ;;
   n_qc <- uniform (-2.0) 2.0 ;;
   n_fk <- uniform (-0.6) 0.6 ;;
   n_rp <- uniform (-3.0) 3.0 ;;
   let ld := lexical_diversity base in
   let qc := query_coverage base in
   let fk := flesch_kincaid_grade base in
   let rp := repetition_penalty base in
   let ld2 := (ld * (1.0 + 0.25 * dt + 0.15 * dp) + n_ld)%Q in
   let qc2 := (qc * (1.0 - 0.20 * dt - 0.10 * dp) + n_qc)%Q in
   let fk_baseline := (2.0 + 8.0 * (0.5 + 0.25 * dt + 0.15 * dp))%Q in
   let fk2 := (max2 fk fk_baseline * (1.0 + 0.10 * dt + 0.05 * dp) + n_fk)%Q in
   let rp_baseline := (5.0 + 15.0 * (0.5 - dp) - 8.0 * dt)%Q in
   let rp2 := (max2 rp rp_baseline + n_rp)%Q in
   let ld2 := round2 (_clip ld2 0.0 100.0) in
   let qc2 := round2 (_clip qc2 0.0 100.0) in
   let fk2 := round2 (_clip fk2 0.0 18.0) in
   let rp2 := round2 (_clip rp2 0.0 100.0) in
   pret {| lexical_diversity := ld2;
           query_coverage := qc2;
           flesch_kincaid_grade := fk2;
           repetition_penalty := rp2 |})%prog.

Variable word_tokenize : string -> list string.
Variable sent_tokenize : string -> list string.
Variable stopwords_english : list string.

(** An item of the dataset, and [load_dataset(..., split="train[:n]")]. *)
Record Item := {
  instruction : string;
  response : string
}.
Variable load_dataset : nat -> list Item.

Definition headers : list string :=
  ["prompt"; "model"; "temperature"; "top_p"; "lexical_diversity";
   "query_coverage"; "flesch_kincaid_grade"; "repetition_penalty"].

(** [not s] for a string. *)
Definition is_empty (s : string) : bool :=
  match s with
  | EmptyString => true
  | _ => false
  end.

Definition generate_mock_data (num_prompts : nat)
    (grid_temps grid_top_ps : option (list Q)) (model_name : string)
    : Prog unit :=
  let grid_temps :=
    match grid_temps with
    | None => [0.1; 0.3; 0.5; 0.7; 0.9]%Q
    | Some g => g
    end in
  let grid_top_ps :=
    match grid_top_ps with
    | None => [0.2; 0.4; 0.6; 0.8; 1.0]%Q
    | Some g => g
    end in
  let dataset := load_dataset num_prompts in
  (_ <- open_w ;;
   _ <- writeheader headers ;;
   for_ dataset (fun item =>
     let prompt := instruction item in
     let response := response item in
     if is_empty prompt || is_empty response then pret tt
     else
       base <- lift (calculate_metrics word_tokenize sent_tokenize
                       stopwords_english prompt response) ;;
       for_ grid_temps (fun t =>
         for_ grid_top_ps (fun p =>
           m <- perturb_metrics base t p ;;
           writerow {| csv_prompt := prompt;
                       csv_model := model_name;
                       csv_temperature := round2 t;
                       csv_top_p := round2 p;
                       csv_metrics := m |}))))%prog.

End Script.

End MockData.

(** ** [app/evaluation/schemas] and [app/evaluation/cruds/evaluation.py] *)

Module ParamPair.

Record t := {
  temperature : Q;
  top_p : Q
}.

End ParamPair.

Module PromptTest.

Record t := {
  prompt : string;
  model : string;
  param_pairs : list ParamPair.t
}.

End PromptTest.

Module EvaluationCreate.

(** The fields of [EvaluationBase]. *)
Record t := {
  prompt : string;
  model : string;
  temperature : Q;
  top_p : Q;
  lexical_diversity : Q;
  query_coverage : Q;
  flesch_kincaid_grade : Q;
  repetition_penalty : Q
}.

End EvaluationCreate.

Module Store.

Section Table.

(** The primary key the database gives to a new row of the table. *)
Variable fresh_id : list Evaluation.t -> Z.

(** [Evaluation( **evaluation.dict())], [db.add], [db.commit],
    [db.refresh]: the table with the new row at its end, and the row. *)
Definition create_evaluation (db : list Evaluation.t)
    (evaluation : EvaluationCreate.t) : list Evaluation.t * Evaluation.t :=
  let db_row :=
    {| Evaluation.id := fresh_id db;
       Evaluation.prompt := EvaluationCreate.prompt evaluation;
       Evaluation.model := EvaluationCreate.model evaluation;
       Evaluation.temperature := EvaluationCreate.temperature evaluation;
       Evaluation.top_p := EvaluationCreate.top_p evaluation;
       Evaluation.lexical_diversity :=
         EvaluationCreate.lexical_diversity evaluation;
       Evaluation.query_coverage := EvaluationCreate.query_coverage evaluation;
       Evaluation.flesch_kincaid_grade :=
         EvaluationCreate.flesch_kincaid_grade evaluation;
       Evaluation.repetition_penalty :=
         EvaluationCreate.repetition_penalty evaluation |} in
  (db ++ [db_row], db_row).

(** [db.add_all(batch)] and [db.commit()]. *)
Definition add_all (db : list Evaluation.t) (batch : list EvaluationCreate.t)
    : list Evaluation.t :=
  fold_left (fun db e => (create_evaluation db e).1) batch db.

End Table.

End Store.

(** ** [app/evaluation/router.py] *)

Module Router.

(** What a call to the generative model comes to: the text of the response,
    or the exception raised on the way, as its message. *)
Inductive ApiOutcome :=
| Text (text : string)
| Raised (message : string).

(** The dict returned by [_call_google_ai]. *)
Record CallResult := {
  temperature : Q;
  top_p : Q;
  output : option string;
  metrics : option MetricRecord;
  error : option string
}.

Section Api.

Variable generate_content : string -> string -> Q -> Q -> ApiOutcome.
(** [str(e)] for an exception of the metrics engine. *)
Variable exn_message : exn -> string.
Variable word_tokenize : string -> list string.
Variable sent_tokenize : string -> list string.
Variable stopwords_english : list string.
Variable fresh_id : list Evaluation.t -> Z.

Definition api_error (temp top_p : Q) (message : string) : CallResult :=
  {| temperature := temp; top_p := top_p; output := None; metrics := None;
     error := Some ("An API error occurred: " +:+ message) |}.

Definition _call_google_ai (model_name prompt : string) (temp top_p : Q)
    : CallResult :=
  match generate_content model_name prompt temp top_p with
  | Text text =>
      match calculate_metrics word_tokenize sent_tokenize stopwords_english
              (Some prompt) (Some text) with
      | inr metrics =>
          {| temperature := temp; top_p := top_p; output := Some text;
             metrics := Some metrics; error := None |}
      | inl e => api_error temp top_p (exn_message e)
      end
  | Raised message => api_error temp top_p message
  end.

(** The row built from a result that has metrics. *)
Definition evaluation_of (payload : PromptTest.t) (r : CallResult)
    (m : MetricRecord) : EvaluationCreate.t :=
  {| EvaluationCreate.prompt := PromptTest.prompt payload;
     EvaluationCreate.model := PromptTest.model payload;
     EvaluationCreate.temperature := temperature r;
     EvaluationCreate.top_p := top_p r;
     EvaluationCreate.lexical_diversity := lexical_diversity m;
     EvaluationCreate.query_coverage := query_coverage m;
     EvaluationCreate.flesch_kincaid_grade := flesch_kincaid_grade m;
     EvaluationCreate.repetition_penalty := repetition_penalty m |}.

(** [asyncio.gather] returns the results in the order of the pairs; the
    rows are stored afterwards, one result at a time. *)
Definition test_prompt (payload : PromptTest.t) (db : list Evaluation.t)
    : list CallResult * list Evaluation.t :=
  let results :=
    (fun pair =>
       _call_google_ai (PromptTest.model payload) (PromptTest.prompt payload)
         (ParamPair.temperature pair) (ParamPair.top_p pair))
    <$> PromptTest.param_pairs payload in
  let db' :=
    fold_left
      (fun db r =>
         match metrics r with
         | Some m =>
             (Store.create_evaluation fresh_id db (evaluation_of payload r m)).1
         | None => db
         end)
      results db in
  (results, db').

End Api.

End Router.

(** ** [app/startup.py] *)

Module Startup.

Inductive seed_exn :=
| KeyError (key : string)
| ValueError (text : string).

Definition bind {A B} (m : seed_exn + A) (k : A -> seed_exn + B)
    : seed_exn + B :=
  match m with
  | inl e => inl e
  | inr a => k a
  end.

Declare Scope seed_scope.
Delimit Scope seed_scope with seed.
Notation "x <- m ;; k" := (bind m (fun x => k))
  (at level 100, m at next level, right associativity) : seed_scope.

Fixpoint for_each {A B} (body : A -> seed_exn + B) (xs : list A)
    : seed_exn + list B :=
  match xs with
  | [] => inr []
  | x :: xs' =>
      (y <- body x ;;
       ys <- for_each body xs' ;;
       inr (y :: ys))%seed
  end.

(** [row[key]] on a row of [csv.DictReader]. *)
Definition getitem (row : gmap string string) (key : string)
    : seed_exn + string :=
  match row !! key with
  | Some v => inr v
  | None => inl (KeyError key)
  end.

Section Seed.

(** [float(s)]; [None] when it raises [ValueError]. *)
Variable parse_float : string -> option Q.
(** The rows [csv.DictReader] reads from a path; [None] when [open] raises
    [FileNotFoundError]. *)
Variable read_csv : string -> option (list (gmap string string)).
Variable getenv : string -> option string.
Variable fresh_id : list Evaluation.t -> Z.

Definition float (s : string) : seed_exn + Q :=
  match parse_float s with
  | Some q => inr q
  | None => inl (ValueError s)
  end.

(** The [model_cls(...)] call of the loop, its arguments evaluated from left
    to right. *)
Definition row_to_model (row : gmap string string)
    : seed_exn + EvaluationCreate.t :=
  (prompt <- getitem row "prompt" ;;
   model <- getitem row "model" ;;
   temperature <- (s <- getitem row "temperature" ;; float s) ;;
   top_p <- (s <- getitem row "top_p" ;; float s) ;;
   lexical_diversity <- (s <- getitem row "lexical_diversity" ;; float s) ;;
   query_coverage <- (s <- getitem row "query_coverage" ;; float s) ;;
   flesch_kincaid_grade <-
     (s <- getitem row "flesch_kincaid_grade" ;; float s) ;;
   repetition_penalty <- (s <- getitem row "repetition_penalty" ;; float s) ;;
   inr {| EvaluationCreate.prompt := prompt;
          EvaluationCreate.model := model;
          EvaluationCreate.temperature := temperature;
          EvaluationCreate.top_p := top_p;
          EvaluationCreate.lexical_diversity := lexical_diversity;
          EvaluationCreate.query_coverage := query_coverage;
          EvaluationCreate.flesch_kincaid_grade := flesch_kincaid_grade;
          EvaluationCreate.repetition_penalty := repetition_penalty |})%seed.

(** The table after the call, and the exception that left it, if any. *)
Definition populate_db_from_csv (csv_path : option string)
    (db : list Evaluation.t) : list Evaluation.t * option seed_exn :=
  let csv_path :=
    match csv_path with
    | None => default "mock_data.csv" (getenv "SEED_CSV_PATH")
    | Some path => path
    end in
  match db with
  | _ :: _ => (db, None)
  | [] =>
      match read_csv csv_path with
      | None => (db, None)
      | Some rows =>
          match for_each row_to_model rows with
          | inl e => (db, Some e)
          | inr batch =>
              match batch with
              | _ :: _ => (Store.add_all fresh_id db batch, None)
              | [] => (db, None)
              end
          end
      end
  end.

End Seed.

End Startup.

(** ** Further specification-side definitions *)

Module Laws.

(** In a view whose averages of a metric are not all equal, the groups at
    the minimum and at the maximum are sent to the ends of the scale:
    [flesch_kincaid_grade] upwards, [repetition_penalty] downwards. *)
Definition extremes_to_ends {G} (view : list (NormalizedRow G)) : Prop :=
  forall o, o ∈ view ->
    (forall x lo hi,
       avg_fk_grade (averages (row o)) = Some x ->
       is_min lo (column avg_fk_grade view) ->
       is_max hi (column avg_fk_grade view) ->
       ~ (lo == hi)%Q ->
       ((x == lo)%Q -> (norm_fk_grade (norms o) == 0)%Q)
       /\ ((x == hi)%Q -> (norm_fk_grade (norms o) == 100)%Q))
    /\ (forall x lo hi,
          avg_repetition_penalty (averages (row o)) = Some x ->
          is_min lo (column avg_repetition_penalty view) ->
          is_max hi (column avg_repetition_penalty view) ->
          ~ (lo == hi)%Q ->
          ((x == lo)%Q -> (norm_repetition_penalty (norms o) == 100)%Q)
          /\ ((x == hi)%Q -> (norm_repetition_penalty (norms o) == 0)%Q)).

(** Both rescaled metrics of a row are within the 0..100 scale. *)
Definition norms_on_scale (n : Norms) : Prop :=
  (0 <= norm_fk_grade n <= 100)%Q
  /\ (0 <= norm_repetition_penalty n <= 100)%Q.

(** No two items of a list, taken in order, are related. *)
Fixpoint pairwise_unrelated {A} (R : A -> A -> bool) (l : list A) : Prop :=
  match l with
  | [] => True
  | x :: l' => Forall (fun y => R x y = false) l' /\ pairwise_unrelated R l'
  end.

(** The key columns of a scatter row. *)
Definition scatter_row_key (o : NormalizedRow ScatterGroup) : string * Q * Q :=
  (model (group (row o)), temperature (group (row o)), top_p (group (row o))).

(** The dataset items the script does not skip: both texts non-empty. *)
Definition kept_item (item : MockData.Item) : bool :=
  negb (MockData.is_empty (MockData.instruction item)
        || MockData.is_empty (MockData.response item)).

(** The metrics of a mock row are within the ranges the script clips to. *)
Definition clipped (m : MetricRecord) : Prop :=
  (0 <= lexical_diversity m <= 100)%Q
  /\ (0 <= query_coverage m <= 100)%Q
  /\ (0 <= flesch_kincaid_grade m <= 18)%Q
  /\ (0 <= repetition_penalty m <= 100)%Q.

(** A data row for [model_name], one of [prompts] and a point of the grid. *)
Definition grid_row (model_name : string) (prompts : list string)
    (temps tops : list Q) (r : MockData.CsvRow) : Prop :=
  MockData.csv_model r = model_name
  /\ MockData.csv_prompt r ∈ prompts
  /\ MockData.csv_temperature r ∈ round2 <$> temps
  /\ MockData.csv_top_p r ∈ round2 <$> tops
  /\ clipped (MockData.csv_metrics r).

(** The results of [test_prompt] that carry metrics, each with them. *)
Definition with_metrics (results : list Router.CallResult)
    : list (Router.CallResult * MetricRecord) :=
  omap (fun r => (fun m => (r, m)) <$> Router.metrics r) results.

(** A stored row holds the prompt and model of the request and the
    parameters and metrics of a result. *)
Definition stores (payload : PromptTest.t)
    (rm : Router.CallResult * MetricRecord) (row : Evaluation.t) : Prop :=
  Evaluation.prompt row = PromptTest.prompt payload
  /\ Evaluation.model row = PromptTest.model payload
  /\ Evaluation.temperature row = Router.temperature rm.1
  /\ Evaluation.top_p row = Router.top_p rm.1
  /\ Evaluation.lexical_diversity row = lexical_diversity rm.2
  /\ Evaluation.query_coverage row = query_coverage rm.2
  /\ Evaluation.flesch_kincaid_grade row = flesch_kincaid_grade rm.2
  /\ Evaluation.repetition_penalty row = repetition_penalty rm.2.

(** A table row holds the columns of a parsed CSV row. *)
Definition seeded_from (e : EvaluationCreate.t) (row : Evaluation.t) : Prop :=
  Evaluation.prompt row = EvaluationCreate.prompt e
  /\ Evaluation.model row = EvaluationCreate.model e
  /\ Evaluation.temperature row = EvaluationCreate.temperature e
  /\ Evaluation.top_p row = EvaluationCreate.top_p e
  /\ Evaluation.lexical_diversity row = EvaluationCreate.lexical_diversity e
  /\ Evaluation.query_coverage row = EvaluationCreate.query_coverage e
  /\ Evaluation.flesch_kincaid_grade row
     = EvaluationCreate.flesch_kincaid_grade e
  /\ Evaluation.repetition_penalty row = EvaluationCreate.repetition_penalty e.

End Laws.

Import Laws.

(** ** Facts about the Python fragments *)

Section PyFacts.

Lemma bind_inr {A B} (m : M A) (k : A -> M B) (b : B) :
  bind m k = inr b -> exists a, m = inr a /\ k a = inr b.
Proof. destruct m as [e|a]; simpl; [discriminate | eauto]. Qed.

Lemma truediv_ok (a b : Q) : ~ (b == 0)%Q -> truediv a b = inr (a / b)%Q.
Proof.
  intros Hb. unfold truediv.
  destruct (Qeq_bool b 0) eqn:E; [|reflexivity].
  apply Qeq_bool_iff in E. contradiction.
Qed.

Lemma float_of_nat_pos (n : nat) : n <> 0 -> (0 < float_of_nat n)%Q.
Proof.
  intros Hn. unfold float_of_nat, Qlt. simpl. lia.
Qed.

Lemma float_of_nat_nonzero (n : nat) : n <> 0 -> ~ (float_of_nat n == 0)%Q.
Proof.
  intros Hn E. apply float_of_nat_pos in Hn. rewrite E in Hn.
  revert Hn. apply Qlt_irrefl.
Qed.

End PyFacts.

(** ** The syllable counter *)

Section Syllables.

Lemma is_vowel_at_cons a cs i :
  is_vowel_at (a :: cs) (S i) = is_vowel_at cs i.
Proof. reflexivity. Qed.

Lemma groups_after_cons prev0 a cs :
  groups_after prev0 (a :: cs) =
  (if char_in a vowels && negb prev0 then 1 else 0)
  + groups_after (char_in a vowels) cs.
Proof.
  unfold groups_after. cbn [length seq List.filter].
  rewrite <- seq_shift.
  assert (Hshift : forall l,
    length (List.filter (opens_group prev0 (a :: cs)) (List.map S l))
    = length (List.filter (opens_group (char_in a vowels) cs) l)).
  { induction l as [|i l IH]; [reflexivity|].
    cbn [List.map List.filter].
    replace (opens_group prev0 (a :: cs) (S i))
      with (opens_group (char_in a vowels) cs i)
      by (unfold opens_group; rewrite is_vowel_at_cons; destruct i; reflexivity).
    destruct (opens_group (char_in a vowels) cs i); cbn [length]; lia. }
  unfold opens_group at 1. unfold is_vowel_at at 1. cbn [lookup list_lookup].
  destruct (char_in a vowels && negb prev0); cbn [length];
    rewrite Hshift; reflexivity.
Qed.

(** The scan of [_count_syllables] adds to its counter the number of vowel
    groups opened in the rest of the word. *)
Lemma syllable_scan cs : forall count prev,
  (fold_left syllable_step cs (count, prev)).1
  = count + groups_after prev cs.
Proof.
  induction cs as [|a cs IH]; intros count prev.
  - unfold groups_after. simpl. lia.
  - cbn [fold_left]. unfold syllable_step at 2.
    rewrite IH, groups_after_cons.
    destruct (char_in a vowels && negb prev); lia.
Qed.

Lemma _count_syllables_eq word :
  _count_syllables word =
  let g := vowel_groups (lower word) in
  Nat.max (if endswith (lower word) "e" && (1 <? g) then g - 1 else g) 1.
Proof.
  unfold _count_syllables, vowel_groups.
  pose proof (syllable_scan (list_ascii_of_string (lower word)) 0 false) as H.
  destruct (fold_left syllable_step _ _) as [count prev].
  simpl in H. subst count. reflexivity.
Qed.

(** C8. The syllable counter never returns less than 1 (for any word, in
    particular any non-empty one); what it returns is the number of vowel
    groups of the lower-cased word over the vowels a, e, i, o, u, y, counted
    from left to right, less one when the word ends in "e" and that number
    exceeds 1, and floored at 1. *)
Theorem count_syllables_spec (word : string) :
  1 <= _count_syllables word
  /\ vowels = "aeiouy"
  /\ (let g := vowel_groups (lower word) in
      _count_syllables word =
      Nat.max 1 (if endswith (lower word) "e" && (1 <? g) then g - 1 else g)).
Proof.
  rewrite _count_syllables_eq. cbv zeta.
  set (g := vowel_groups (lower word)).
  repeat split.
  - lia.
  - apply Nat.max_comm.
Qed.

End Syllables.

(** ** Sets built from lists *)

Section SetSize.

Context {A : Type} `{Countable A}.

Lemma list_to_set_remove_dups (l : list A) :
  list_to_set (remove_dups l) = (list_to_set l : gset A).
Proof. apply set_eq. intros x. rewrite !elem_of_list_to_set. apply elem_of_remove_dups. Qed.

Lemma size_list_to_set_dups (l : list A) :
  size (list_to_set l : gset A) = length (remove_dups l).
Proof.
  rewrite <- list_to_set_remove_dups.
  apply size_list_to_set, NoDup_remove_dups.
Qed.

Lemma length_remove_dups_le (l : list A) : length (remove_dups l) <= length l.
Proof.
  induction l as [|x l IH]; simpl; [lia|].
  destruct (decide_rel elem_of x l); simpl; lia.
Qed.

Lemma length_remove_dups_pos (l : list A) : l <> [] -> 0 < length (remove_dups l).
Proof.
  intros Hl. destruct l as [|x l]; [congruence|].
  assert (Hx : x ∈ remove_dups (x :: l)) by (apply elem_of_remove_dups; left).
  destruct (remove_dups (x :: l)); [inversion Hx | simpl; lia].
Qed.

Lemma length_remove_dups_NoDup (l : list A) :
  length (remove_dups l) = length l <-> NoDup l.
Proof.
  induction l as [|x l IH]; simpl.
  - split; [constructor | reflexivity].
  - pose proof (length_remove_dups_le l) as Hle.
    destruct (decide_rel elem_of x l) as [Hin|Hnin]; simpl.
    + split; [lia|]. intros Hnd. apply NoDup_cons in Hnd. tauto.
    + rewrite NoDup_cons. split.
      * intros E. split; [assumption|]. apply IH. lia.
      * intros [_ Hnd]. apply IH in Hnd. lia.
Qed.

End SetSize.

(** ** The repetition penalty *)

Section Repetition.

Lemma windows_short {A} (n : nat) (l : list A) :
  length l < n -> windows n l = [].
Proof.
  intros Hlt. destruct l as [|x l]; [reflexivity|].
  cbn [windows]. destruct (n <=? length (x :: l)) eqn:E; [|reflexivity].
  apply Nat.leb_le in E. lia.
Qed.

Lemma ngrams_of_take_drop (tokens : list string) (n : nat) :
  ngrams_of tokens n =
  (fun i => take n (drop i tokens)) <$> seq 0 (length tokens + 1 - n).
Proof.
  unfold ngrams_of, range, slice. apply list_fmap_ext.
  intros i x _. f_equal. lia.
Qed.

(** The index-based comprehension of the source enumerates the contiguous
    windows. *)
Lemma ngrams_of_windows (tokens : list string) (n : nat) :
  1 <= n -> ngrams_of tokens n = windows n tokens.
Proof.
  intros Hn. rewrite ngrams_of_take_drop.
  induction tokens as [|x l IH].
  - simpl. replace (1 - n) with 0 by lia. reflexivity.
  - cbn [windows]. destruct (n <=? length (x :: l)) eqn:E.
    + apply Nat.leb_le in E. cbn [length] in *.
      replace (S (length l) + 1 - n) with (S (length l + 1 - n)) by lia.
      cbn [seq]. rewrite <- seq_shift, fmap_cons. f_equal.
      rewrite <- IH. rewrite <- list_fmap_compose. reflexivity.
    + apply Nat.leb_gt in E. cbn [length] in *.
      replace (S (length l) + 1 - n) with 0 by lia. reflexivity.
Qed.

Lemma _ratio_for_n_spec (tokens : list string) (n : nat) :
  1 <= n ->
  exists r, _ratio_for_n tokens n = inr r
            /\ (r == repeat_ratio n tokens)%Q
            /\ (0 <= r)%Q
            /\ (length tokens < n -> r = 0%Q).
Proof.
  intros Hn. unfold _ratio_for_n, repeat_ratio.
  rewrite size_list_to_set_dups, ngrams_of_windows by assumption.
  destruct (length tokens <? n) eqn:Elen.
  - apply Nat.ltb_lt in Elen. exists 0%Q.
    rewrite (windows_short n tokens Elen). simpl.
    repeat split; try reflexivity. apply Qle_refl.
  - apply Nat.ltb_ge in Elen.
    set (ws := windows n tokens).
    pose proof (length_remove_dups_le ws) as Hle.
    destruct (length ws =? 0) eqn:Etot.
    + apply Nat.eqb_eq in Etot. exists 0%Q.
      assert (Eu : length (remove_dups ws) = 0) by lia.
      rewrite Etot, Eu.
      repeat split; try reflexivity. apply Qle_refl.
    + apply Nat.eqb_neq in Etot.
      pose proof (float_of_nat_pos _ Etot) as Hpos.
      rewrite truediv_ok by (apply float_of_nat_nonzero; assumption).
      eexists. split; [reflexivity|]. unfold float_of_nat in *.
      assert (Hrep : (0 <= inject_Z (Z.of_nat (length ws)
                                     - Z.of_nat (length (remove_dups ws))))%Q).
      { unfold Qle. simpl. lia. }
      repeat split.
      * field. intros E. rewrite E in Hpos. revert Hpos. apply Qlt_irrefl.
      * apply Qmult_le_0_compat; [|discriminate].
        apply Qle_shift_div_l; [assumption|]. rewrite Qmult_0_l. assumption.
      * lia.
Qed.

(** C2. The repetition penalty is the trigram repeat ratio
    [100 * (total - unique) / total], except that when that ratio is 0 and
    there are fewer than 50 tokens it is the bigram repeat ratio; it is
    always one of the two, never a mixture; and a ratio over fewer tokens
    than the n-gram size is 0. *)
Theorem repetition_penalty_two_tier (tokens : list string) :
  exists r3 r2 : Q,
    _ratio_for_n tokens 3 = inr r3
    /\ _ratio_for_n tokens 2 = inr r2
    /\ (r3 == repeat_ratio 3 tokens)%Q
    /\ (r2 == repeat_ratio 2 tokens)%Q
    /\ _repetition_penalty tokens =
       inr (if Qeq_bool r3 0 && (length tokens <? 50) then r2 else r3)
    /\ (_repetition_penalty tokens = inr r3
        \/ _repetition_penalty tokens = inr r2)
    /\ (length tokens < 3 -> r3 = 0%Q)
    /\ (length tokens < 2 -> r2 = 0%Q).
Proof.
  destruct (_ratio_for_n_spec tokens 3) as (r3 & E3 & S3 & P3 & Z3); [lia|].
  destruct (_ratio_for_n_spec tokens 2) as (r2 & E2 & S2 & P2 & Z2); [lia|].
  exists r3, r2.
  assert (Hpen : _repetition_penalty tokens =
                 inr (if Qeq_bool r3 0 && (length tokens <? 50) then r2 else r3)).
  { unfold _repetition_penalty. rewrite E3. cbn [bind].
    destruct (Qeq_bool r3 0) eqn:Ez.
    - apply Qeq_bool_iff in Ez.
      assert (Qle_bool r3 0 = true) as ->
        by (apply Qle_bool_iff; rewrite Ez; apply Qle_refl).
      cbn [negb orb andb].
      destruct (length tokens <? 50) eqn:E50.
      + apply Nat.ltb_lt in E50.
        assert ((50 <=? length tokens) = false) as -> by (apply Nat.leb_gt; lia).
        assumption.
      + apply Nat.ltb_ge in E50.
        assert ((50 <=? length tokens) = true) as -> by (apply Nat.leb_le; lia).
        reflexivity.
    - apply Qeq_bool_neq in Ez.
      assert (Qle_bool r3 0 = false) as ->.
      { destruct (Qle_bool r3 0) eqn:El; [|reflexivity].
        apply Qle_bool_iff in El. exfalso. apply Ez.
        apply Qle_antisym; assumption. }
      reflexivity. }
  repeat split; try assumption.
  rewrite Hpen. destruct (Qeq_bool r3 0 && (length tokens <? 50)); auto.
Qed.

End Repetition.

(** ** The metrics engine *)

Section EngineFacts.

Variable word_tokenize : string -> list string.
Variable sent_tokenize : string -> list string.
Variable stopwords_english : list string.

Abbreviation calculate_metrics :=
  (Metrics.calculate_metrics word_tokenize sent_tokenize stopwords_english).
Abbreviation prompt_keywords_of :=
  (Metrics.prompt_keywords_of word_tokenize stopwords_english).
Abbreviation response_tokens := (Metrics.response_tokens word_tokenize).

Lemma _flesch_kincaid_grade_total (s w y : Z) :
  exists g, _flesch_kincaid_grade s w y = inr g.
Proof.
  unfold _flesch_kincaid_grade.
  destruct (s <=? 0)%Z eqn:Es; [eexists; reflexivity|].
  destruct (w <=? 0)%Z eqn:Ew; [eexists; reflexivity|].
  apply Z.leb_gt in Es, Ew. cbn [orb].
  assert (Hnz : forall z : Z, (0 < z)%Z -> ~ (inject_Z z == 0)%Q).
  { intros z Hz E. unfold Qeq in E. simpl in E. lia. }
  rewrite (truediv_ok _ _ (Hnz s Es)). cbn [bind].
  rewrite (truediv_ok _ _ (Hnz w Ew)). cbn [bind].
  eexists; reflexivity.
Qed.

Lemma _repetition_penalty_total (tokens : list string) :
  exists r, _repetition_penalty tokens = inr r.
Proof.
  destruct (_ratio_for_n_spec tokens 3) as (r3 & E3 & _); [lia|].
  destruct (_ratio_for_n_spec tokens 2) as (r2 & E2 & _); [lia|].
  unfold _repetition_penalty. rewrite E3. cbn [bind].
  destruct (negb (Qle_bool r3 0) || (50 <=? length tokens)); eauto.
Qed.

(** On a response with at least one token the engine returns a record; its
    first two fields are as follows. *)
Lemma calculate_metrics_tokens (prompt response : option string) :
  response_tokens response <> [] ->
  exists fk rp,
    calculate_metrics prompt response =
    inr {| lexical_diversity :=
             float_of_nat (size (list_to_set (response_tokens response)
                                 : gset string))
             / float_of_nat (length (response_tokens response)) * 100;
           query_coverage :=
             (let kw := prompt_keywords_of prompt in
              if size kw =? 0 then 100
              else float_of_nat
                     (size (kw ∩ list_to_set (response_tokens response)))
                   / float_of_nat (size kw) * 100);
           flesch_kincaid_grade := fk;
           repetition_penalty := rp |}%Q.
Proof.
  intros Htok. unfold Metrics.calculate_metrics.
  fold (response_tokens response). fold (prompt_keywords_of prompt).
  set (tokens := response_tokens response) in *.
  assert (Hlen : length tokens <> 0) by (destruct tokens; simpl; congruence).
  assert ((length tokens =? 0) = false) as -> by (apply Nat.eqb_neq; exact Hlen).
  rewrite truediv_ok by (apply float_of_nat_nonzero; exact Hlen).
  cbn [bind].
  destruct (_flesch_kincaid_grade_total
              (Z.of_nat (Nat.max (length (sent_tokenize (or_str response ""))) 1))
              (Z.of_nat (length tokens))
              (Z.of_nat (sum_list (_count_syllables <$> tokens)))) as [fk Efk].
  destruct (_repetition_penalty_total tokens) as [rp Erp].
  exists fk, rp.
  destruct (size (prompt_keywords_of prompt) =? 0) eqn:Ekw; cbn [negb bind].
  - rewrite Efk. cbn [bind]. rewrite Erp. reflexivity.
  - apply Nat.eqb_neq in Ekw.
    rewrite truediv_ok by (apply float_of_nat_nonzero; exact Ekw).
    cbn [bind]. rewrite Efk. cbn [bind]. rewrite Erp. reflexivity.
Qed.

Lemma calculate_metrics_no_tokens (prompt response : option string) :
  response_tokens response = [] ->
  calculate_metrics prompt response = inr zero_record.
Proof.
  intros Htok. unfold Metrics.calculate_metrics.
  fold (response_tokens response). rewrite Htok. reflexivity.
Qed.

End EngineFacts.

Section LexicalDiversity.

(** The type/token ratio of a non-empty sequence, as the engine computes
    it from the set of tokens. *)
Lemma type_token_ratio_eq (tokens : list string) :
  tokens <> [] ->
  (float_of_nat (size (list_to_set tokens : gset string))
   / float_of_nat (length tokens) * 100 == type_token_ratio tokens)%Q.
Proof.
  intros Hne. unfold type_token_ratio. rewrite size_list_to_set_dups.
  unfold float_of_nat. field.
  apply (float_of_nat_nonzero (length tokens)).
  destruct tokens; simpl; congruence.
Qed.

Lemma type_token_ratio_bounds (tokens : list string) :
  tokens <> [] ->
  (0 < type_token_ratio tokens)%Q
  /\ (type_token_ratio tokens <= 100)%Q
  /\ ((type_token_ratio tokens == 100)%Q <-> NoDup tokens).
Proof.
  intros Hne. unfold type_token_ratio.
  pose proof (length_remove_dups_le tokens) as Hle.
  pose proof (length_remove_dups_pos tokens Hne) as Hpos.
  pose proof (length_remove_dups_NoDup tokens) as Hnd.
  set (u := length (remove_dups tokens)) in *.
  set (n := length tokens) in *.
  assert (Hn : (0 < inject_Z (Z.of_nat n))%Q) by (unfold Qlt; simpl; lia).
  assert (Hu : (0 < inject_Z (Z.of_nat u))%Q) by (unfold Qlt; simpl; lia).
  assert (Hun : (inject_Z (Z.of_nat u) <= inject_Z (Z.of_nat n))%Q)
    by (unfold Qle; simpl; lia).
  assert (Hnz : ~ (inject_Z (Z.of_nat n) == 0)%Q)
    by (intros E; rewrite E in Hn; revert Hn; apply Qlt_irrefl).
  repeat split.
  - apply Qlt_shift_div_l; [assumption|]. lra.
  - apply Qle_shift_div_r; [assumption|]. lra.
  - intros E. apply Hnd.
    assert (E' : (100 * inject_Z (Z.of_nat u) == 100 * inject_Z (Z.of_nat n))%Q).
    { transitivity (100 * inject_Z (Z.of_nat u) / inject_Z (Z.of_nat n)
                    * inject_Z (Z.of_nat n))%Q.
      - field. assumption.
      - rewrite E. reflexivity. }
    assert (E'' : (inject_Z (Z.of_nat u) == inject_Z (Z.of_nat n))%Q) by lra.
    unfold Qeq in E''. simpl in E''. lia.
  - intros Hno. apply Hnd in Hno. rewrite Hno. field. assumption.
Qed.

End LexicalDiversity.

Section EngineClaims.

Variable word_tokenize : string -> list string.
Variable sent_tokenize : string -> list string.
Variable stopwords_english : list string.

Abbreviation calculate_metrics :=
  (Metrics.calculate_metrics word_tokenize sent_tokenize stopwords_english).
Abbreviation prompt_keywords_of :=
  (Metrics.prompt_keywords_of word_tokenize stopwords_english).
Abbreviation response_tokens := (Metrics.response_tokens word_tokenize).

(** C1 (as amended). For every prompt whose tokens, lower-cased and with
    the stop words removed, leave no keyword, and every response that has
    at least one token, [calculate_metrics] returns [query_coverage]
    exactly 100.0. *)
Theorem query_coverage_no_keywords (prompt response : option string) :
  prompt_keywords_of prompt = ∅ ->
  response_tokens response <> [] ->
  exists m, calculate_metrics prompt response = inr m
            /\ query_coverage m = 100%Q.
Proof.
  intros Hkw Htok.
  destruct (calculate_metrics_tokens word_tokenize sent_tokenize
              stopwords_english prompt response Htok) as (fk & rp & E).
  eexists. split; [exact E|]. cbn [query_coverage].
  rewrite Hkw. reflexivity.
Qed.

(** C6. A response whose tokenization yields no token makes
    [calculate_metrics] return the record with all four fields 0.0, and no
    exception; so does the empty response with the empty prompt, the
    tokenizer mapping the empty text to no token. *)
Theorem zero_tokens_zero_record :
  (forall prompt response : option string,
     response_tokens response = [] ->
     calculate_metrics prompt response =
     inr {| lexical_diversity := 0; query_coverage := 0;
            flesch_kincaid_grade := 0; repetition_penalty := 0 |})
  /\ (word_tokenize "" = [] ->
      calculate_metrics (Some "") (Some "") =
      inr {| lexical_diversity := 0; query_coverage := 0;
             flesch_kincaid_grade := 0; repetition_penalty := 0 |}).
Proof.
  split.
  - intros prompt response Htok.
    apply calculate_metrics_no_tokens. exact Htok.
  - intros Hnil. apply calculate_metrics_no_tokens. exact Hnil.
Qed.

(** C7. On a response with a non-empty token sequence, [lexical_diversity]
    is [100 * |unique tokens| / |tokens|]; it lies in (0, 100] and is 100
    exactly when the tokens are pairwise distinct. *)
Theorem lexical_diversity_spec (prompt response : option string) :
  response_tokens response <> [] ->
  exists m, calculate_metrics prompt response = inr m
            /\ (lexical_diversity m
                == type_token_ratio (response_tokens response))%Q
            /\ (0 < lexical_diversity m)%Q
            /\ (lexical_diversity m <= 100)%Q
            /\ ((lexical_diversity m == 100)%Q
                <-> NoDup (response_tokens response)).
Proof.
  intros Htok.
  destruct (calculate_metrics_tokens word_tokenize sent_tokenize
              stopwords_english prompt response Htok) as (fk & rp & E).
  eexists. split; [exact E|]. cbn [lexical_diversity].
  pose proof (type_token_ratio_eq _ Htok) as Heq.
  destruct (type_token_ratio_bounds _ Htok) as (Hpos & Hle & Hiff).
  split; [exact Heq|]. rewrite Heq. tauto.
Qed.

(** C10. [None] in place of either string is treated as the empty string,
    and [calculate_metrics(None, None)] returns the all-zero record, the
    tokenizer mapping the empty text to no token. *)
Theorem none_is_empty_string :
  (forall response, calculate_metrics None response
                    = calculate_metrics (Some "") response)
  /\ (forall prompt, calculate_metrics prompt None
                     = calculate_metrics prompt (Some ""))
  /\ (word_tokenize "" = [] ->
      calculate_metrics None None =
      inr {| lexical_diversity := 0; query_coverage := 0;
             flesch_kincaid_grade := 0; repetition_penalty := 0 |}).
Proof.
  repeat split; try reflexivity.
  intros Hnil. apply calculate_metrics_no_tokens. exact Hnil.
Qed.

End EngineClaims.

(** The claims above, run on the reference tokenizer. *)

Lemma query_coverage_no_keywords_witness :
  exists m, run_metrics (Some "The") (Some "a cat") = inr m
            /\ query_coverage m = 100%Q.
Proof.
  apply (query_coverage_no_keywords ws_word_tokenize dot_sent_tokenize
           some_stopwords (Some "The") (Some "a cat")).
  - vm_compute. reflexivity.
  - vm_compute. discriminate.
Defined.

(** C1 as stated fails on a response without tokens: the prompt "the" has no
    keyword, and with the empty response the short-circuit returns
    [query_coverage] 0.0. *)
Lemma query_coverage_empty_response_counterexample :
  prompt_keywords_of ws_word_tokenize some_stopwords (Some "the") = ∅
  /\ exists m, run_metrics (Some "the") (Some "") = inr m
               /\ query_coverage m = 0%Q
               /\ ~ (query_coverage m == 100)%Q.
Proof.
  split; [vm_compute; reflexivity|].
  eexists. split; [vm_compute; reflexivity|].
  split; [reflexivity|]. discriminate.
Qed.

Lemma zero_tokens_zero_record_witness :
  run_metrics (Some "") (Some "") = inr zero_record
  /\ run_metrics (Some "any prompt") (Some "   ") = inr zero_record.
Proof.
  pose proof (zero_tokens_zero_record ws_word_tokenize dot_sent_tokenize
                some_stopwords) as [Hall Hempty].
  split.
  - apply Hempty. reflexivity.
  - apply Hall. reflexivity.
Defined.

Lemma lexical_diversity_spec_witness :
  exists m, run_metrics (Some "q") (Some "a b a") = inr m
            /\ (lexical_diversity m
                == type_token_ratio (response_tokens ws_word_tokenize
                                       (Some "a b a")))%Q
            /\ (0 < lexical_diversity m)%Q
            /\ (lexical_diversity m <= 100)%Q
            /\ ((lexical_diversity m == 100)%Q
                <-> NoDup (response_tokens ws_word_tokenize (Some "a b a"))).
Proof.
  apply (lexical_diversity_spec ws_word_tokenize dot_sent_tokenize
           some_stopwords (Some "q") (Some "a b a")).
  vm_compute. discriminate.
Defined.

Lemma none_is_empty_string_witness :
  run_metrics None None = inr zero_record.
Proof.
  apply (none_is_empty_string ws_word_tokenize dot_sent_tokenize
           some_stopwords).
  reflexivity.
Defined.

(** ** Rounding, minima and maxima *)

Section Rounding.

Lemma round_half_even_comp (x y : Q) :
  (x == y)%Q -> round_half_even x = round_half_even y.
Proof.
  intros E. unfold round_half_even.
  rewrite (Qfloor_comp _ _ E).
  assert (Ec : ((x - inject_Z (Qfloor y) ?= 1 # 2)
                = (y - inject_Z (Qfloor y) ?= 1 # 2))%Q)
    by (rewrite E; reflexivity).
  rewrite Ec. reflexivity.
Qed.

#[global] Instance round2_comp : Proper (Qeq ==> Qeq) round2.
Proof.
  intros x y E. unfold round2.
  rewrite (round_half_even_comp (x * 100) (y * 100)) by (rewrite E; reflexivity).
  reflexivity.
Qed.

Lemma round2_two_decimals (x : Q) : two_decimals (round2 x).
Proof. exists (round_half_even (x * 100)). reflexivity. Qed.

Lemma two_decimals_0 : two_decimals 0.
Proof. exists 0%Z. reflexivity. Qed.

Lemma round2_0 (x : Q) : (x == 0)%Q -> (round2 x == 0)%Q.
Proof. intros E. rewrite E. reflexivity. Qed.

Lemma kpi_field_two_decimals (v : option Q) : two_decimals (kpi_field v).
Proof.
  destruct v as [x|]; simpl; [|apply two_decimals_0].
  destruct (Qeq_bool x 0); [apply two_decimals_0 | apply round2_two_decimals].
Qed.

End Rounding.

Section MinMax.

Lemma min_list_spec (vs : list Q) : forall v,
  min_list v vs ∈ v :: vs /\ Forall (fun y => (min_list v vs <= y)%Q) (v :: vs).
Proof.
  unfold min_list.
  induction vs as [|x vs IH]; intros v.
  - simpl. split; [left|]. constructor; [apply Qle_refl | constructor].
  - cbn [fold_left]. destruct (Qle_bool v x) eqn:E.
    + apply Qle_bool_iff in E.
      destruct (IH v) as [Hin Hall]. split.
      * apply elem_of_cons in Hin as [->|Hin]; [left | right; right; exact Hin].
      * inversion Hall as [|? ? Hv Hvs]; subst.
        constructor; [exact Hv|]. constructor; [|exact Hvs].
        eapply Qle_trans; eassumption.
    + assert (Hlt : (x < v)%Q).
      { apply Qnot_le_lt. intros Hle. apply Qle_bool_iff in Hle. congruence. }
      destruct (IH x) as [Hin Hall]. split.
      * right. exact Hin.
      * inversion Hall as [|? ? Hx Hxs]; subst.
        constructor; [|constructor; assumption].
        eapply Qle_trans; [exact Hx|]. apply Qlt_le_weak. exact Hlt.
Qed.

Lemma max_list_spec (vs : list Q) : forall v,
  max_list v vs ∈ v :: vs /\ Forall (fun y => (y <= max_list v vs)%Q) (v :: vs).
Proof.
  unfold max_list.
  induction vs as [|x vs IH]; intros v.
  - simpl. split; [left|]. constructor; [apply Qle_refl | constructor].
  - cbn [fold_left]. destruct (Qle_bool x v) eqn:E.
    + apply Qle_bool_iff in E.
      destruct (IH v) as [Hin Hall]. split.
      * apply elem_of_cons in Hin as [->|Hin]; [left | right; right; exact Hin].
      * inversion Hall as [|? ? Hv Hvs]; subst.
        constructor; [exact Hv|]. constructor; [|exact Hvs].
        eapply Qle_trans; eassumption.
    + assert (Hlt : (v < x)%Q).
      { apply Qnot_le_lt. intros Hle. apply Qle_bool_iff in Hle. congruence. }
      destruct (IH x) as [Hin Hall]. split.
      * right. exact Hin.
      * inversion Hall as [|? ? Hx Hxs]; subst.
        constructor; [|constructor; assumption].
        eapply Qle_trans; [|exact Hx]. apply Qlt_le_weak. exact Hlt.
Qed.

Lemma elem_of_Exists_Qeq (m : Q) (l : list Q) : m ∈ l -> Exists (Qeq m) l.
Proof.
  intros Hin. apply Exists_exists. exists m. split; [exact Hin | reflexivity].
Qed.

Lemma is_min_unique (l : list Q) (a b : Q) :
  is_min a l -> is_min b l -> (a == b)%Q.
Proof.
  intros [Ha Hla] [Hb Hlb].
  apply Exists_exists in Ha as (a' & Ha' & Ea).
  apply Exists_exists in Hb as (b' & Hb' & Eb).
  rewrite Forall_forall in Hla, Hlb.
  apply Qle_antisym.
  - rewrite Eb. apply Hla. exact Hb'.
  - rewrite Ea. apply Hlb. exact Ha'.
Qed.

Lemma is_max_unique (l : list Q) (a b : Q) :
  is_max a l -> is_max b l -> (a == b)%Q.
Proof.
  intros [Ha Hla] [Hb Hlb].
  apply Exists_exists in Ha as (a' & Ha' & Ea).
  apply Exists_exists in Hb as (b' & Hb' & Eb).
  rewrite Forall_forall in Hla, Hlb.
  apply Qle_antisym.
  - rewrite Ea. apply Hlb. exact Ha'.
  - rewrite Eb. apply Hla. exact Hb'.
Qed.

(** [_min_max] returns the minimum and the maximum of the values that are
    not [None], when there is one. *)
Lemma _min_max_spec (vals : list (option Q)) :
  omap id vals <> [] ->
  is_min (_min_max vals).1 (omap id vals)
  /\ is_max (_min_max vals).2 (omap id vals).
Proof.
  intros Hne. unfold _min_max.
  destruct (omap id vals) as [|v vs]; [congruence|]. cbn [fst snd].
  destruct (min_list_spec vs v) as [Hmin Hminall].
  destruct (max_list_spec vs v) as [Hmax Hmaxall].
  split; split; auto using elem_of_Exists_Qeq.
Qed.

End MinMax.

(** ** The aggregate queries *)

Section Queries.

Context {K A : Type} (same : K -> K -> bool) (key : A -> K).

Lemma add_to_group_nonempty (k : K) (r : A) (groups : list (K * list A)) :
  Forall (fun g => g.2 <> []) groups ->
  Forall (fun g => g.2 <> []) (add_to_group same k r groups).
Proof.
  induction groups as [|[k' rs] groups IH]; intros Hall; cbn [add_to_group].
  - constructor; [discriminate | constructor].
  - inversion Hall as [|? ? Hrs Hrest]; subst.
    destruct (same k' k).
    + constructor; [|exact Hrest]. simpl. destruct rs; discriminate.
    + constructor; [exact Hrs | apply IH; exact Hrest].
Qed.

(** No group of a [GROUP BY] is empty. *)
Lemma sql_group_by_nonempty (rows : list A) :
  Forall (fun g => g.2 <> []) (sql_group_by same key rows).
Proof.
  unfold sql_group_by.
  assert (Hgen : forall groups,
    Forall (fun g : K * list A => g.2 <> []) groups ->
    Forall (fun g => g.2 <> [])
      (fold_left (fun groups r => add_to_group same (key r) r groups)
                 rows groups)).
  { induction rows as [|r rows IH]; intros groups Hg; cbn [fold_left].
    - exact Hg.
    - apply IH, add_to_group_nonempty, Hg. }
  apply Hgen. constructor.
Qed.

Lemma fold_add_to_group_single (k : K) (rows rs : list A) :
  Forall (fun x => same k (key x) = true) rows ->
  fold_left (fun groups r => add_to_group same (key r) r groups)
            rows [(k, rs)]
  = [(k, rs ++ rows)].
Proof.
  revert rs. induction rows as [|x rows IH]; intros rs Hall; cbn [fold_left].
  - rewrite app_nil_r. reflexivity.
  - inversion Hall as [|? ? Hx Hrest]; subst.
    cbn [add_to_group]. rewrite Hx, (IH _ Hrest), <- app_assoc. reflexivity.
Qed.

(** Rows that all carry the key of the first one form a single group. *)
Lemma sql_group_by_single (r : A) (rows : list A) :
  Forall (fun x => same (key r) (key x) = true) rows ->
  sql_group_by same key (r :: rows) = [(key r, r :: rows)].
Proof.
  intros Hall. unfold sql_group_by. cbn [fold_left add_to_group].
  rewrite (fold_add_to_group_single _ _ _ Hall). reflexivity.
Qed.

End Queries.

Section Averages.

Lemma sql_avg_is_Some (vals : list Q) : vals <> [] -> is_Some (sql_avg vals).
Proof. destruct vals; [congruence | intros _; eexists; reflexivity]. Qed.

Lemma averages_of_measured (rows : list Evaluation.t) :
  rows <> [] -> measured (averages_of rows).
Proof.
  intros Hne. unfold measured, averages_of. cbn.
  repeat split; apply sql_avg_is_Some;
    destruct rows; simpl; congruence.
Qed.

Lemma query_scatter_measured (db : list Evaluation.t) :
  Forall (fun r => measured (averages r)) (query_scatter db).
Proof.
  unfold query_scatter. apply Forall_fmap.
  eapply Forall_impl; [apply sql_group_by_nonempty|].
  intros [[[m t] p] rows] Hne. simpl in *.
  apply averages_of_measured. exact Hne.
Qed.

Lemma query_model_comparison_measured (db : list Evaluation.t) :
  Forall (fun r => measured (averages r)) (query_model_comparison db).
Proof.
  unfold query_model_comparison. apply Forall_fmap.
  eapply Forall_impl; [apply sql_group_by_nonempty|].
  intros [m rows] Hne. simpl in *.
  apply averages_of_measured. exact Hne.
Qed.

End Averages.

(** ** The normalization pass *)

Section Normalization.

Lemma for_each_ok {A B} (body : A -> M B) (R : A -> B -> Prop) (xs : list A) :
  Forall (fun x => exists y, body x = inr y /\ R x y) xs ->
  exists ys, for_each body xs = inr ys /\ Forall2 R xs ys.
Proof.
  induction xs as [|x xs IH]; intros Hall.
  - exists []. split; [reflexivity | constructor].
  - inversion Hall as [|? ? (y & Ey & Hy) Hrest]; subst.
    destruct (IH Hrest) as (ys & Eys & Hys).
    exists (y :: ys). cbn [for_each]. rewrite Ey. cbn [bind].
    rewrite Eys. cbn [bind]. split; [reflexivity | constructor; assumption].
Qed.

Lemma range_nonzero (lo hi : Q) :
  ~ ((if negb (Qeq_bool (hi - lo) 0) then hi - lo else epsilon) == 0)%Q.
Proof.
  destruct (Qeq_bool (hi - lo) 0) eqn:E; cbn [negb].
  - discriminate.
  - apply Qeq_bool_neq. exact E.
Qed.

Lemma normalize_row_ok {G} (fk_min fk_max rp_min rp_max : Q)
    (r : AggregateRow G) :
  measured (averages r) ->
  exists o, normalize_row fk_min fk_max rp_min rp_max r = inr o
            /\ normalized_with fk_min fk_max rp_min rp_max r o.
Proof.
  intros ([ld Eld] & [qc Eqc] & [fk Efk] & [rp Erp]).
  unfold normalize_row, _norm_high_is_better, _norm_low_is_better.
  rewrite Eld, Eqc, Efk, Erp. cbn [round2_opt sub_l sub_r bind ret].
  rewrite !truediv_ok by apply range_nonzero. cbn [bind].
  eexists. split; [reflexivity|].
  split; [reflexivity|]. exists ld, qc, fk, rp.
  split; [|reflexivity].
  destruct (averages r); simpl in *; congruence.
Qed.

(** The normalization of a view whose averages are all numbers raises no
    exception and writes the four [norm_*] fields of every row. *)
Lemma normalize_view_ok {G} (rows : list (AggregateRow G)) :
  Forall (fun r => measured (averages r)) rows ->
  exists view, normalize_view rows = inr view /\ normalized_from rows view.
Proof.
  intros Hall. unfold normalized_from.
  destruct rows as [|r rows].
  - exists []. split; [reflexivity | constructor].
  - unfold normalize_view.
    destruct (_min_max _) as [ld_min ld_max].
    destruct (_min_max _) as [qc_min qc_max].
    destruct (_min_max _) as [fk_min fk_max].
    destruct (_min_max _) as [rp_min rp_max]. cbn [fst snd].
    apply for_each_ok.
    eapply Forall_impl; [exact Hall|].
    intros x Hx. apply normalize_row_ok. exact Hx.
Qed.

(** [get_analytics] returns a payload on every table. *)
Lemma get_analytics_ok (db : list Evaluation.t) :
  exists scatter compare,
    get_analytics db =
    inr {| scatter_data := scatter;
           model_comparison := compare;
           kpi := {| overall_avg_lexical_diversity :=
                       kpi_field (avg_lexical_diversity (query_overall db));
                     overall_avg_query_coverage :=
                       kpi_field (avg_query_coverage (query_overall db));
                     overall_avg_fk_grade :=
                       kpi_field (avg_fk_grade (query_overall db));
                     overall_avg_repetition_penalty :=
                       kpi_field (avg_repetition_penalty (query_overall db))
                  |} |}
    /\ normalized_from (query_scatter db) scatter
    /\ normalized_from (query_model_comparison db) compare.
Proof.
  destruct (normalize_view_ok _ (query_scatter_measured db)) as (sc & Esc & Hsc).
  destruct (normalize_view_ok _ (query_model_comparison_measured db))
    as (cmp & Ecmp & Hcmp).
  exists sc, cmp. unfold get_analytics. rewrite Esc. cbn [bind].
  rewrite Ecmp. cbn [bind]. auto.
Qed.

End Normalization.

(** ** What a normalized view satisfies *)

Section Views.

Context {G : Type}.
Implicit Types (rows : list (AggregateRow G)) (view : list (NormalizedRow G)).

Lemma Forall2_elem_of_r {X Y} (R : X -> Y -> Prop) (xs : list X) (ys : list Y) y :
  Forall2 R xs ys -> y ∈ ys -> exists x, x ∈ xs /\ R x y.
Proof.
  induction 1 as [|x y' xs ys Hxy _ IH]; intros Hin.
  - inversion Hin.
  - apply elem_of_cons in Hin as [->|Hin].
    + exists x. split; [left | exact Hxy].
    + destruct (IH Hin) as (x' & Hx' & HR). exists x'. split; [right|]; assumption.
Qed.

(** The rows of the output carry the query's averages, unrounded. *)
Lemma normalized_from_rows rows view :
  normalized_from rows view -> row <$> view = rows.
Proof.
  unfold normalized_from. cbv zeta.
  generalize (_min_max ((fun r => avg_fk_grade (averages r)) <$> rows)).
  generalize (_min_max ((fun r => avg_repetition_penalty (averages r)) <$> rows)).
  intros rp_mm fk_mm.
  induction 1 as [|r o rs vw [Hrow _] _ IH]; [reflexivity|].
  rewrite fmap_cons, Hrow, IH. reflexivity.
Qed.

Lemma normalized_from_rounded rows view :
  normalized_from rows view ->
  forall o, o ∈ view -> rounded_norms (norms o).
Proof.
  intros Hfrom o Ho.
  destruct (Forall2_elem_of_r _ _ _ _ Hfrom Ho)
    as (r & _ & _ & ld & qc & fk & rp & _ & En).
  rewrite En. unfold rounded_norms. cbn.
  repeat split; apply round2_two_decimals.
Qed.

Lemma column_of_rows (f : Averages -> option Q) rows view :
  row <$> view = rows ->
  column f view = omap id ((fun r => f (averages r)) <$> rows).
Proof.
  intros <-. unfold column.
  induction view as [|o view IH]; [reflexivity|].
  cbn. destruct (f (averages (row o))); cbn; rewrite IH; reflexivity.
Qed.

Lemma elem_of_column (f : Averages -> option Q) view o x :
  o ∈ view -> f (averages (row o)) = Some x -> x ∈ column f view.
Proof.
  intros Ho Ex. unfold column. apply list_elem_of_omap.
  exists o. split; assumption.
Qed.

(** Rescaling against the code's own minimum and maximum agrees with
    rescaling against any minimum and maximum of the column. *)
Lemma rescale_high (col : list Q) (x a b lo hi : Q) :
  x ∈ col -> is_min a col -> is_max b col -> is_min lo col -> is_max hi col ->
  (round2 (100 * (x - a)
           / (if negb (Qeq_bool (b - a) 0) then b - a else epsilon))
   == if Qeq_bool lo hi then 0 else round2 (100 * (x - lo) / (hi - lo)))%Q.
Proof.
  intros Hx Ha Hb Hlo Hhi.
  pose proof (is_min_unique _ _ _ Ha Hlo) as Ea.
  pose proof (is_max_unique _ _ _ Hb Hhi) as Eb.
  destruct Ha as [_ Ha]. destruct Hb as [_ Hb].
  rewrite Forall_forall in Ha, Hb.
  specialize (Ha x Hx). specialize (Hb x Hx).
  destruct (Qeq_bool lo hi) eqn:E.
  - apply Qeq_bool_iff in E.
    assert (Eab : (b - a == 0)%Q) by (rewrite Ea, Eb, E; ring).
    apply round2_0.
    assert (Exa : (x - a == 0)%Q) by lra.
    rewrite Exa. unfold Qdiv. ring.
  - apply Qeq_bool_neq in E.
    assert (Hne : ~ (b - a == 0)%Q) by (rewrite Ea, Eb; lra).
    assert (Qeq_bool (b - a) 0 = false) as ->.
    { destruct (Qeq_bool (b - a) 0) eqn:E'; [|reflexivity].
      apply Qeq_bool_iff in E'. contradiction. }
    cbn [negb]. rewrite Ea, Eb. reflexivity.
Qed.

Lemma rescale_low (col : list Q) (x a b lo hi : Q) :
  x ∈ col -> is_min a col -> is_max b col -> is_min lo col -> is_max hi col ->
  (round2 (100 * (b - x)
           / (if negb (Qeq_bool (b - a) 0) then b - a else epsilon))
   == if Qeq_bool lo hi then 0 else round2 (100 * (hi - x) / (hi - lo)))%Q.
Proof.
  intros Hx Ha Hb Hlo Hhi.
  pose proof (is_min_unique _ _ _ Ha Hlo) as Ea.
  pose proof (is_max_unique _ _ _ Hb Hhi) as Eb.
  destruct Ha as [_ Ha]. destruct Hb as [_ Hb].
  rewrite Forall_forall in Ha, Hb.
  specialize (Ha x Hx). specialize (Hb x Hx).
  destruct (Qeq_bool lo hi) eqn:E.
  - apply Qeq_bool_iff in E.
    assert (Eab : (b - a == 0)%Q) by (rewrite Ea, Eb, E; ring).
    apply round2_0.
    assert (Exa : (b - x == 0)%Q) by lra.
    rewrite Exa. unfold Qdiv. ring.
  - apply Qeq_bool_neq in E.
    assert (Hne : ~ (b - a == 0)%Q) by (rewrite Ea, Eb; lra).
    assert (Qeq_bool (b - a) 0 = false) as ->.
    { destruct (Qeq_bool (b - a) 0) eqn:E'; [|reflexivity].
      apply Qeq_bool_iff in E'. contradiction. }
    cbn [negb]. rewrite Ea, Eb. reflexivity.
Qed.

Lemma normalized_from_rescaled rows view :
  normalized_from rows view -> rescaled view.
Proof.
  intros Hfrom o Ho.
  pose proof (normalized_from_rows _ _ Hfrom) as Hrows.
  destruct (Forall2_elem_of_r _ _ _ _ Hfrom Ho)
    as (r & _ & Hrow & ld & qc & fk & rp & Ea & En).
  rewrite Hrow, Ea, En. cbn.
  split; intros x lo hi [= <-] Hlo Hhi.
  - assert (Hx : fk ∈ column avg_fk_grade view)
      by (apply (elem_of_column _ _ o); [exact Ho | rewrite Hrow, Ea; reflexivity]).
    rewrite (column_of_rows _ _ _ Hrows) in Hx, Hlo, Hhi.
    destruct (_min_max_spec ((fun r => avg_fk_grade (averages r)) <$> rows))
      as [Hmin Hmax]; [intros E; rewrite E in Hx; inversion Hx|].
    eapply rescale_high; eassumption.
  - assert (Hx : rp ∈ column avg_repetition_penalty view)
      by (apply (elem_of_column _ _ o); [exact Ho | rewrite Hrow, Ea; reflexivity]).
    rewrite (column_of_rows _ _ _ Hrows) in Hx, Hlo, Hhi.
    destruct (_min_max_spec
                ((fun r => avg_repetition_penalty (averages r)) <$> rows))
      as [Hmin Hmax]; [intros E; rewrite E in Hx; inversion Hx|].
    eapply rescale_low; eassumption.
Qed.

End Views.

(** ** The aggregation layer *)

Section AnalyticsClaims.

Lemma rescaled_two_groups {G} (view : list (NormalizedRow G)) :
  rescaled view -> two_groups_4_10 view.
Proof.
  intros Hres o1 o2 x1 x2 -> E1 E2 Hx1 Hx2.
  assert (Hcol : column avg_fk_grade [o1; o2] = [x1; x2])
    by (unfold column; cbn; rewrite E1, E2; reflexivity).
  assert (Hmin : is_min x1 (column avg_fk_grade [o1; o2])).
  { rewrite Hcol. split.
    - left. reflexivity.
    - repeat constructor; lra. }
  assert (Hmax : is_max x2 (column avg_fk_grade [o1; o2])).
  { rewrite Hcol. split.
    - right. left. reflexivity.
    - repeat constructor; lra. }
  assert (Hne : Qeq_bool x1 x2 = false).
  { destruct (Qeq_bool x1 x2) eqn:E; [|reflexivity].
    apply Qeq_bool_iff in E. lra. }
  split.
  - destruct (Hres o1) as [Hfk _]; [left|].
    rewrite (Hfk x1 x1 x2 E1 Hmin Hmax), Hne.
    apply round2_0. unfold Qdiv. ring.
  - destruct (Hres o2) as [Hfk _]; [right; left|].
    rewrite (Hfk x2 x1 x2 E2 Hmin Hmax), Hne.
    assert (E : (100 * (x2 - x1) / (x2 - x1) == 100)%Q) by (field; lra).
    rewrite E. reflexivity.
Qed.

(** C3 (as amended). Within each view, the normalized
    [flesch_kincaid_grade] of a group average [x] is
    [100 * (x - min) / (max - min)] rounded to two decimals, and the
    normalized [repetition_penalty] is [100 * (max - x) / (max - min)]
    rounded to two decimals, [min] and [max] being taken over that view's
    group averages, when [min] and [max] differ (and 0 when they are
    equal); for two groups with [flesch_kincaid_grade] averages 4.0 and
    10.0 the normalized values are 0.0 and 100.0. *)
Theorem normalization_is_rounded_min_max (db : list Evaluation.t) :
  exists p, get_analytics db = inr p
            /\ rescaled (scatter_data p)
            /\ rescaled (model_comparison p)
            /\ two_groups_4_10 (scatter_data p)
            /\ two_groups_4_10 (model_comparison p).
Proof.
  destruct (get_analytics_ok db) as (sc & cmp & E & Hsc & Hcmp).
  eexists. split; [exact E|]. cbn [scatter_data model_comparison].
  pose proof (normalized_from_rescaled _ _ Hsc).
  pose proof (normalized_from_rescaled _ _ Hcmp).
  auto using rescaled_two_groups.
Qed.

(** A view of a single row: its range is degenerate, so both rescaled
    metrics are computed over the epsilon denominator. *)
Lemma normalized_from_single {G} (r : AggregateRow G) (o : NormalizedRow G) :
  normalized_from [r] [o] ->
  exists fk rp,
    avg_fk_grade (averages (row o)) = Some fk
    /\ avg_repetition_penalty (averages (row o)) = Some rp
    /\ norm_fk_grade (norms o) = round2 (100 * (fk - fk) / epsilon)
    /\ norm_repetition_penalty (norms o) = round2 (100 * (rp - rp) / epsilon).
Proof.
  unfold normalized_from. cbv zeta. intros Hfrom.
  inversion Hfrom as [|? ? ? ? Hro _]; subst.
  destruct Hro as (Hrow & ld & qc & fk & rp & Ea & En).
  exists fk, rp. rewrite Hrow, Ea, En.
  cbn [fmap list_fmap avg_fk_grade avg_repetition_penalty
       norm_fk_grade norm_repetition_penalty].
  rewrite Ea.
  cbn [avg_fk_grade avg_repetition_penalty _min_max omap list_omap id
       min_list max_list fold_left fst snd].
  rewrite !(Qeq_eq_bool (_ - _) 0) by ring.
  repeat split; reflexivity.
Qed.

(** C4 (as amended). When all records of a non-empty table share one
    (model, temperature, top_p), the scatter view has a single row, the
    epsilon denominator applies, and the row's normalized fk_grade and
    normalized repetition_penalty are both 0.0; no exception is raised. *)
Theorem single_group_normalizes_to_zero (db : list Evaluation.t) :
  db <> [] ->
  (forall e e', e ∈ db -> e' ∈ db ->
     same_scatter_key (scatter_key e) (scatter_key e') = true) ->
  exists p o fk rp,
    get_analytics db = inr p
    /\ scatter_data p = [o]
    /\ avg_fk_grade (averages (row o)) = Some fk
    /\ avg_repetition_penalty (averages (row o)) = Some rp
    /\ norm_fk_grade (norms o) = round2 (100 * (fk - fk) / epsilon)
    /\ norm_repetition_penalty (norms o) = round2 (100 * (rp - rp) / epsilon)
    /\ (norm_fk_grade (norms o) == 0)%Q
    /\ (norm_repetition_penalty (norms o) == 0)%Q.
Proof.
  intros Hne Hsame.
  destruct db as [|e rest]; [congruence|].
  assert (Hq : exists r, query_scatter (e :: rest) = [r]).
  { unfold query_scatter. rewrite sql_group_by_single.
    - eexists. reflexivity.
    - apply Forall_forall. intros x Hx. apply Hsame; [left | right; exact Hx]. }
  destruct Hq as [r Hq].
  destruct (get_analytics_ok (e :: rest)) as (sc & cmp & E & Hsc & _).
  rewrite Hq in Hsc.
  assert (Hone : exists o, sc = [o]).
  { unfold normalized_from in Hsc. cbv zeta in Hsc.
    inversion Hsc as [|? o ? vw _ Hrest]; subst.
    inversion Hrest; subst. eexists; reflexivity. }
  destruct Hone as [o ->].
  destruct (normalized_from_single _ _ Hsc) as (fk & rp & Efk & Erp & Nfk & Nrp).
  eexists _, o, fk, rp.
  split; [exact E|]. split; [reflexivity|].
  repeat (split; [assumption|]).
  rewrite Nfk, Nrp.
  split; apply round2_0; unfold Qdiv; ring.
Qed.

(** C5 (as amended). Every [norm_*] field of the scatter and
    model-comparison rows and every [kpi] field is rounded to 2 decimal
    places; the [avg_*] fields of the rows are the query's averages as
    they are, unrounded; and each [norm_*] is the rounding of a value
    computed from those unrounded averages. *)
Theorem rounding_at_output_boundary (db : list Evaluation.t) :
  exists p, get_analytics db = inr p
            /\ Forall (fun o => rounded_norms (norms o)) (scatter_data p)
            /\ Forall (fun o => rounded_norms (norms o)) (model_comparison p)
            /\ rounded_kpi (kpi p)
            /\ row <$> scatter_data p = query_scatter db
            /\ row <$> model_comparison p = query_model_comparison db
            /\ normalized_from (query_scatter db) (scatter_data p)
            /\ normalized_from (query_model_comparison db)
                               (model_comparison p).
Proof.
  destruct (get_analytics_ok db) as (sc & cmp & E & Hsc & Hcmp).
  eexists. split; [exact E|]. cbn [scatter_data model_comparison kpi].
  repeat split; try assumption.
  - apply Forall_forall. eapply normalized_from_rounded; eassumption.
  - apply Forall_forall. eapply normalized_from_rounded; eassumption.
  - apply kpi_field_two_decimals.
  - apply kpi_field_two_decimals.
  - apply kpi_field_two_decimals.
  - apply kpi_field_two_decimals.
  - eapply normalized_from_rows; eassumption.
  - eapply normalized_from_rows; eassumption.
Qed.

(** C9. On the empty table the payload has no scatter row and no
    model-comparison row, the normalization pass is skipped, the kpi block
    is present with its four fields 0, and no exception is raised. *)
Theorem empty_table_payload :
  get_analytics [] =
  inr {| scatter_data := [];
         model_comparison := [];
         kpi := {| overall_avg_lexical_diversity := 0;
                   overall_avg_query_coverage := 0;
                   overall_avg_fk_grade := 0;
                   overall_avg_repetition_penalty := 0 |} |}
  /\ normalize_view (query_scatter []) = inr []
  /\ normalize_view (query_model_comparison []) = inr [].
Proof. repeat split; reflexivity. Qed.

End AnalyticsClaims.

(** ** The aggregation layer on concrete tables *)

Lemma normalization_is_rounded_min_max_witness :
  exists p o1 o2,
    get_analytics db_two_groups = inr p
    /\ scatter_data p = [o1; o2]
    /\ (norm_fk_grade (norms o1) == 0)%Q
    /\ (norm_fk_grade (norms o2) == 100)%Q.
Proof.
  destruct (normalization_is_rounded_min_max db_two_groups)
    as (p & E & _ & _ & Hsc & _).
  vm_compute in E. injection E as <-.
  eexists _, _, _. split; [vm_compute; reflexivity|].
  split; [reflexivity|].
  eapply Hsc; reflexivity.
Defined.

(** C3 as stated fails where the quotient has more than two decimals: of
    three groups with [flesch_kincaid_grade] averages 0, 1 and 3, the second
    gets 33.33, which is not [100 * (1 - 0) / (3 - 0)]. *)
Lemma normalization_unrounded_counterexample :
  exists p o x,
    get_analytics db_three_groups = inr p
    /\ scatter_data p !! 1 = Some o
    /\ avg_fk_grade (averages (row o)) = Some x
    /\ (x == 1)%Q
    /\ is_min 0 (column avg_fk_grade (scatter_data p))
    /\ is_max 3 (column avg_fk_grade (scatter_data p))
    /\ (norm_fk_grade (norms o) == 33.33)%Q
    /\ ~ (norm_fk_grade (norms o) == 100 * (x - 0) / (3 - 0))%Q.
Proof.
  eexists _, _, _. split; [vm_compute; reflexivity|].
  split; [reflexivity|]. split; [reflexivity|].
  split; [reflexivity|].
  split; [|split; [|split]].
  - split; [left; reflexivity|]. repeat constructor; discriminate.
  - split; [right; right; left; reflexivity|]. repeat constructor; discriminate.
  - reflexivity.
  - discriminate.
Qed.

Lemma single_group_normalizes_to_zero_witness :
  exists p o fk rp,
    get_analytics db_one_group = inr p
    /\ scatter_data p = [o]
    /\ avg_fk_grade (averages (row o)) = Some fk
    /\ avg_repetition_penalty (averages (row o)) = Some rp
    /\ norm_fk_grade (norms o) = round2 (100 * (fk - fk) / epsilon)
    /\ norm_repetition_penalty (norms o) = round2 (100 * (rp - rp) / epsilon)
    /\ (norm_fk_grade (norms o) == 0)%Q
    /\ (norm_repetition_penalty (norms o) == 0)%Q.
Proof.
  apply (single_group_normalizes_to_zero db_one_group).
  - discriminate.
  - intros e e' He He'.
    repeat (apply elem_of_cons in He as [->|He]);
      repeat (apply elem_of_cons in He' as [->|He']);
      try reflexivity; try (inversion He); inversion He'.
Defined.

(** C4 as stated fails: with a single group both normalized values are 0.0,
    at distance 100 from the 100.0 the claim expects. *)
Lemma single_group_not_near_100_counterexample :
  exists p o,
    get_analytics db_one_group = inr p
    /\ scatter_data p = [o]
    /\ (norm_fk_grade (norms o) == 0)%Q
    /\ (norm_repetition_penalty (norms o) == 0)%Q
    /\ (Qabs (norm_fk_grade (norms o) - 100) == 100)%Q
    /\ (Qabs (norm_repetition_penalty (norms o) - 100) == 100)%Q.
Proof.
  eexists _, _. split; [vm_compute; reflexivity|].
  repeat split.
Qed.

Lemma rounding_at_output_boundary_witness :
  exists p,
    get_analytics db_one_group = inr p
    /\ Forall (fun o => rounded_norms (norms o)) (scatter_data p)
    /\ rounded_kpi (kpi p)
    /\ row <$> scatter_data p = query_scatter db_one_group.
Proof.
  destruct (rounding_at_output_boundary db_one_group)
    as (p & E & Hsc & _ & Hkpi & Hrows & _).
  exists p. auto.
Defined.

(** C5 as stated fails on the averaged fields of the rows: a group whose
    [lexical_diversity] average is 1/3 is returned with
    [avg_lexical_diversity] 1/3, which has no two-decimal form. *)
Lemma averages_unrounded_counterexample :
  exists p o x,
    get_analytics db_one_group = inr p
    /\ scatter_data p = [o]
    /\ avg_lexical_diversity (averages (row o)) = Some x
    /\ (x == 1 # 3)%Q
    /\ ~ two_decimals x.
Proof.
  eexists _, _, _. split; [vm_compute; reflexivity|].
  split; [reflexivity|]. split; [reflexivity|].
  split; [reflexivity|].
  intros [k Hk]. unfold Qeq in Hk. simpl in Hk. lia.
Qed.

(** ** Worked examples *)

Example count_syllables_examples :
  _count_syllables "Table" = 1
  /\ _count_syllables "beautiful" = 3
  /\ _count_syllables "rhythm" = 1
  /\ _count_syllables "e" = 1
  /\ _count_syllables "tst" = 1.
Proof. repeat split; reflexivity. Qed.

(** Four tokens without a repeated trigram but with a repeated bigram: the
    penalty is the bigram ratio itself, not its mean with the trigram
    ratio. *)
Example repetition_fallback_example :
  exists r3 r2,
    _ratio_for_n ["a"; "b"; "a"; "b"] 3 = inr r3
    /\ _ratio_for_n ["a"; "b"; "a"; "b"] 2 = inr r2
    /\ (r3 == 0)%Q
    /\ (r2 == 100 / 3)%Q
    /\ _repetition_penalty ["a"; "b"; "a"; "b"] = inr r2
    /\ ~ (r2 == (r3 + r2) / 2)%Q.
Proof.
  eexists _, _. split; [vm_compute; reflexivity|].
  split; [vm_compute; reflexivity|].
  split; [reflexivity|]. split; [reflexivity|].
  split; [vm_compute; reflexivity|]. discriminate.
Qed.

(** The same three-token phrase five times over repeats trigrams. *)
Example repeated_phrase_example :
  exists r,
    _repetition_penalty
      (ws_word_tokenize "x y z x y z x y z x y z x y z") = inr r
    /\ (0 < r)%Q.
Proof.
  eexists. split; [vm_compute; reflexivity|]. reflexivity.
Qed.

Example calculate_metrics_example :
  exists m,
    run_metrics (Some "the cat") (Some "The cat sat on the mat. The cat sat.")
    = inr m
    /\ (lexical_diversity m == 600 / 9)%Q
    /\ (query_coverage m == 100)%Q
    /\ (repetition_penalty m == 12.5)%Q.
Proof.
  eexists. split; [vm_compute; reflexivity|]. repeat split.
Qed.

(** * Further properties of the metrics engine *)

Section RatioBounds.

Lemma Qeq_inject_nat (a b : nat) :
  (inject_Z (Z.of_nat a) == inject_Z (Z.of_nat b))%Q <-> a = b.
Proof. unfold Qeq. simpl. lia. Qed.

(** The repeat ratio over [n]-grams lies in [0, 100) and is 0 exactly when no
    [n]-gram occurs twice. *)
Lemma _ratio_for_n_range (tokens : list string) (n : nat) :
  1 <= n ->
  exists r, _ratio_for_n tokens n = inr r
            /\ (0 <= r)%Q /\ (r < 100)%Q
            /\ ((r == 0)%Q <-> NoDup (windows n tokens)).
Proof.
  intros Hn. unfold _ratio_for_n.
  rewrite size_list_to_set_dups, ngrams_of_windows by assumption.
  destruct (length tokens <? n) eqn:Elen.
  - apply Nat.ltb_lt in Elen. exists 0%Q.
    rewrite (windows_short n tokens Elen).
    repeat split; try reflexivity; try discriminate. constructor.
  - set (ws := windows n tokens).
    pose proof (length_remove_dups_le ws) as Hle.
    pose proof (length_remove_dups_NoDup ws) as Hnd.
    destruct (length ws =? 0) eqn:Etot.
    + apply Nat.eqb_eq in Etot. exists 0%Q.
      repeat split; try reflexivity; try discriminate.
      intros _. apply Hnd. lia.
    + apply Nat.eqb_neq in Etot.
      assert (Hu : 0 < length (remove_dups ws)).
      { apply length_remove_dups_pos. destruct ws; simpl in *; congruence. }
      pose proof (float_of_nat_pos _ Etot) as Hpos.
      rewrite truediv_ok by (apply float_of_nat_nonzero; assumption).
      eexists. split; [reflexivity|]. unfold float_of_nat in *.
      set (t := length ws) in *. set (u := length (remove_dups ws)) in *.
      assert (Hrep : (inject_Z (Z.of_nat t - Z.of_nat u)
                      == inject_Z (Z.of_nat t) - inject_Z (Z.of_nat u))%Q).
      { unfold Z.sub. rewrite inject_Z_plus, inject_Z_opp. reflexivity. }
      assert (HuQ : (0 < inject_Z (Z.of_nat u))%Q) by (unfold Qlt; simpl; lia).
      assert (HleQ : (inject_Z (Z.of_nat u) <= inject_Z (Z.of_nat t))%Q)
        by (unfold Qle; simpl; lia).
      rewrite Hrep.
      assert (Hnz : ~ (inject_Z (Z.of_nat t) == 0)%Q)
        by (intros E; rewrite E in Hpos; revert Hpos; apply Qlt_irrefl).
      assert (Hmul : ((inject_Z (Z.of_nat t) - inject_Z (Z.of_nat u))
                      / inject_Z (Z.of_nat t) * 100 * inject_Z (Z.of_nat t)
                      == (inject_Z (Z.of_nat t) - inject_Z (Z.of_nat u)) * 100)%Q)
        by (field; assumption).
      repeat split.
      * apply Qmult_le_0_compat; [|discriminate].
        apply Qle_shift_div_l; [assumption|]. lra.
      * apply (Qmult_lt_r _ _ (inject_Z (Z.of_nat t))); [assumption|].
        rewrite Hmul. lra.
      * intros E. apply Hnd. rewrite E in Hmul.
        assert (E'' : (inject_Z (Z.of_nat u) == inject_Z (Z.of_nat t))%Q) by lra.
        apply Qeq_inject_nat in E''. exact E''.
      * intros Hno. apply Hnd in Hno. fold u t in Hno. rewrite Hno.
        unfold Qdiv. ring.
Qed.

End RatioBounds.

Section RepetitionMore.

Lemma windows_3_prefix_2 {A} (l : list A) :
  take 2 <$> windows 3 l `prefix_of` windows 2 l.
Proof.
  induction l as [|x l IH]; [apply prefix_nil|].
  cbn [windows]. destruct (3 <=? length (x :: l)) eqn:E3.
  - apply Nat.leb_le in E3.
    assert ((2 <=? length (x :: l)) = true) as -> by (apply Nat.leb_le; lia).
    rewrite fmap_cons, take_take. apply prefix_cons. exact IH.
  - apply prefix_nil.
Qed.

(** A sequence without a repeated bigram has no repeated trigram. *)
Lemma NoDup_windows_2_3 {A} (l : list A) :
  NoDup (windows 2 l) -> NoDup (windows 3 l).
Proof.
  intros Hnd. destruct (windows_3_prefix_2 l) as [k Hk].
  rewrite Hk in Hnd. apply NoDup_app in Hnd as [Hnd _].
  apply NoDup_fmap_1 in Hnd. exact Hnd.
Qed.

Lemma _repetition_penalty_bounds (tokens : list string) :
  exists r, _repetition_penalty tokens = inr r /\ (0 <= r)%Q /\ (r < 100)%Q.
Proof.
  destruct (_ratio_for_n_range tokens 3) as (r3 & E3 & P3 & L3 & _); [lia|].
  destruct (_ratio_for_n_range tokens 2) as (r2 & E2 & P2 & L2 & _); [lia|].
  unfold _repetition_penalty. rewrite E3. cbn [bind].
  destruct (negb (Qle_bool r3 0) || (50 <=? length tokens)); eauto.
Qed.

(** X3. The repetition penalty is a percentage below 100, and it is 0 exactly
    when no trigram repeats and, for texts under 50 tokens, no bigram
    repeats either. *)
Theorem repetition_penalty_range (tokens : list string) :
  exists r, _repetition_penalty tokens = inr r
            /\ (0 <= r)%Q /\ (r < 100)%Q
            /\ ((r == 0)%Q <->
                NoDup (windows 3 tokens)
                /\ (50 <= length tokens \/ NoDup (windows 2 tokens))).
Proof.
  destruct (_ratio_for_n_range tokens 3) as (r3 & E3 & P3 & L3 & Z3); [lia|].
  destruct (_ratio_for_n_range tokens 2) as (r2 & E2 & P2 & L2 & Z2); [lia|].
  unfold _repetition_penalty. rewrite E3. cbn [bind].
  destruct (Qle_bool r3 0) eqn:Ele; cbn [negb orb].
  - apply Qle_bool_iff in Ele.
    assert (Ez : (r3 == 0)%Q) by (apply Qle_antisym; assumption).
    destruct (50 <=? length tokens) eqn:E50.
    + apply Nat.leb_le in E50. exists r3.
      split; [reflexivity|]. split; [assumption|]. split; [assumption|].
      split; [intros _; split; [tauto | left; exact E50] | intros _; exact Ez].
    + apply Nat.leb_gt in E50. exists r2.
      split; [assumption|]. split; [assumption|]. split; [assumption|].
      split.
      * intros Hz. split; [tauto | right; tauto].
      * intros [_ [Hge|Hnd]]; [lia | tauto].
  - exists r3.
    assert (Hnz : ~ (r3 == 0)%Q).
    { intros E. rewrite E in Ele. discriminate. }
    split; [reflexivity|]. split; [assumption|]. split; [assumption|].
    split; [intros E; contradiction | intros [Hnd _]; tauto].
Qed.

(** X4. A text in which no bigram occurs twice gets repetition penalty 0,
    whatever its length. *)
Theorem no_repeated_bigram_no_penalty (tokens : list string) :
  NoDup (windows 2 tokens) ->
  exists r, _repetition_penalty tokens = inr r /\ (r == 0)%Q.
Proof.
  intros Hnd.
  destruct (_ratio_for_n_range tokens 3) as (r3 & E3 & P3 & L3 & Z3); [lia|].
  destruct (_ratio_for_n_range tokens 2) as (r2 & E2 & P2 & L2 & Z2); [lia|].
  assert (Hz3 : (r3 == 0)%Q) by (apply Z3, NoDup_windows_2_3, Hnd).
  assert (Hz2 : (r2 == 0)%Q) by (apply Z2, Hnd).
  unfold _repetition_penalty. rewrite E3. cbn [bind].
  destruct (negb (Qle_bool r3 0) || (50 <=? length tokens)); eauto.
Qed.

End RepetitionMore.

Lemma no_repeated_bigram_no_penalty_witness :
  exists r, _repetition_penalty ["the"; "cat"; "sat"; "on"; "the"; "mat"] = inr r
            /\ (r == 0)%Q.
Proof.
  apply (no_repeated_bigram_no_penalty ["the"; "cat"; "sat"; "on"; "the"; "mat"]).
  apply (bool_decide_unpack _). vm_compute. exact I.
Defined.

Section SyllablesMore.

Lemma lower_ascii_idem (c : ascii) : lower_ascii (lower_ascii c) = lower_ascii c.
Proof.
  destruct c as [[] [] [] [] [] [] [] []]; reflexivity.
Qed.

Lemma lower_idem (s : string) : lower (lower s) = lower s.
Proof.
  induction s as [|c s IH]; simpl; [reflexivity|].
  rewrite lower_ascii_idem, IH. reflexivity.
Qed.




(** X6. The syllable count does not depend on the letter case of the word. *)
Theorem count_syllables_case_insensitive (word : string) :
  _count_syllables (lower word) = _count_syllables word.
Proof.
  unfold _count_syllables. rewrite lower_idem. reflexivity.
Qed.


Lemma _count_syllables_pos (word : string) : 1 <= _count_syllables word.
Proof. rewrite _count_syllables_eq. cbv zeta. lia. Qed.

Lemma sum_syllables_ge (tokens : list string) :
  length tokens <= sum_list (_count_syllables <$> tokens).
Proof.
  induction tokens as [|w ws IH]; [reflexivity|].
  rewrite fmap_cons. cbn [length].
  change (1 + length ws <= _count_syllables w
                           + sum_list (_count_syllables <$> ws)).
  apply Nat.add_le_mono; [apply _count_syllables_pos | exact IH].
Qed.

End SyllablesMore.

Section Percentages.

(** [a / b * 100] for counts [a <= b], [b] not 0. *)
Lemma percent_facts (a b : nat) :
  b <> 0 -> a <= b ->
  let p := (float_of_nat a / float_of_nat b * 100)%Q in
  (0 <= p)%Q /\ (p <= 100)%Q
  /\ ((p == 100)%Q <-> a = b) /\ ((p == 0)%Q <-> a = 0).
Proof.
  intros Hb Hab p. subst p. unfold float_of_nat.
  assert (HB : (0 < inject_Z (Z.of_nat b))%Q) by (unfold Qlt; simpl; lia).
  assert (HA : (0 <= inject_Z (Z.of_nat a))%Q) by (unfold Qle; simpl; lia).
  assert (HAB : (inject_Z (Z.of_nat a) <= inject_Z (Z.of_nat b))%Q)
    by (unfold Qle; simpl; lia).
  assert (Hnz : ~ (inject_Z (Z.of_nat b) == 0)%Q)
    by (intros E; rewrite E in HB; revert HB; apply Qlt_irrefl).
  assert (Hmul : (inject_Z (Z.of_nat a) / inject_Z (Z.of_nat b) * 100
                  * inject_Z (Z.of_nat b) == inject_Z (Z.of_nat a) * 100)%Q)
    by (field; assumption).
  set (q := (inject_Z (Z.of_nat a) / inject_Z (Z.of_nat b) * 100)%Q) in *.
  assert (Hq0 : (0 <= q)%Q).
  { unfold q. apply Qmult_le_0_compat; [|discriminate].
    apply Qle_shift_div_l; [assumption|]. lra. }
  assert (Hq100 : (q <= 100)%Q).
  { apply (Qmult_le_r _ _ (inject_Z (Z.of_nat b))); [assumption|].
    rewrite Hmul. lra. }
  repeat split; try assumption.
  - intros E. rewrite E in Hmul.
    assert (E' : (inject_Z (Z.of_nat a) == inject_Z (Z.of_nat b))%Q) by lra.
    apply Qeq_inject_nat in E'. exact E'.
  - intros ->. unfold q. field. assumption.
  - intros E. rewrite E in Hmul.
    assert (E' : (inject_Z (Z.of_nat a) == 0)%Q) by lra.
    unfold Qeq in E'. simpl in E'. lia.
  - intros ->. unfold q. simpl. unfold Qdiv. ring.
Qed.

Lemma _flesch_kincaid_grade_lower (s w y : Z) (g : Q) :
  (1 <= s)%Z -> (1 <= w)%Z -> (w <= y)%Z ->
  _flesch_kincaid_grade s w y = inr g -> (- (3.79) < g)%Q.
Proof.
  intros Hs Hw Hy. unfold _flesch_kincaid_grade.
  assert ((s <=? 0)%Z = false) as -> by (apply Z.leb_gt; lia).
  assert ((w <=? 0)%Z = false) as -> by (apply Z.leb_gt; lia).
  cbn [orb].
  assert (Hnz : forall z : Z, (0 < z)%Z -> ~ (inject_Z z == 0)%Q).
  { intros z Hz E. unfold Qeq in E. simpl in E. lia. }
  rewrite (truediv_ok _ _ (Hnz s ltac:(lia))). cbn [bind].
  rewrite (truediv_ok _ _ (Hnz w ltac:(lia))). cbn [bind].
  intros [= <-].
  assert (HS : (0 < inject_Z s)%Q) by (unfold Qlt; simpl; lia).
  assert (HW : (0 < inject_Z w)%Q) by (unfold Qlt; simpl; lia).
  assert (HY : (inject_Z w <= inject_Z y)%Q) by (unfold Qle; simpl; lia).
  assert (H1 : (0 < inject_Z w / inject_Z s)%Q).
  { apply Qlt_shift_div_l; [assumption|]. lra. }
  assert (H2 : (1 <= inject_Z y / inject_Z w)%Q).
  { apply Qle_shift_div_l; [assumption|]. lra. }
  lra.
Qed.

End Percentages.

Section EngineMore.

Variable word_tokenize : string -> list string.
Variable sent_tokenize : string -> list string.
Variable stopwords_english : list string.

Abbreviation calculate_metrics :=
  (Metrics.calculate_metrics word_tokenize sent_tokenize stopwords_english).
Abbreviation prompt_keywords_of :=
  (Metrics.prompt_keywords_of word_tokenize stopwords_english).
Abbreviation response_tokens := (Metrics.response_tokens word_tokenize).

(** The record returned on a response with tokens, with the two guarded
    computations that produce its last two fields. *)
Lemma calculate_metrics_fields (prompt response : option string) :
  response_tokens response <> [] ->
  exists fk rp,
    calculate_metrics prompt response =
    inr {| lexical_diversity :=
             float_of_nat (size (list_to_set (response_tokens response)
                                 : gset string))
             / float_of_nat (length (response_tokens response)) * 100;
           query_coverage :=
             (let kw := prompt_keywords_of prompt in
              if size kw =? 0 then 100
              else float_of_nat
                     (size (kw ∩ list_to_set (response_tokens response)))
                   / float_of_nat (size kw) * 100);
           flesch_kincaid_grade := fk;
           repetition_penalty := rp |}%Q
    /\ _flesch_kincaid_grade
         (Z.of_nat (Nat.max (length (sent_tokenize (or_str response ""))) 1))
         (Z.of_nat (length (response_tokens response)))
         (Z.of_nat (sum_list (_count_syllables <$> response_tokens response)))
       = inr fk
    /\ _repetition_penalty (response_tokens response) = inr rp.
Proof.
  intros Htok. unfold Metrics.calculate_metrics.
  fold (response_tokens response). fold (prompt_keywords_of prompt).
  set (tokens := response_tokens response) in *.
  assert (Hlen : length tokens <> 0) by (destruct tokens; simpl; congruence).
  assert ((length tokens =? 0) = false) as -> by (apply Nat.eqb_neq; exact Hlen).
  rewrite truediv_ok by (apply float_of_nat_nonzero; exact Hlen).
  cbn [bind].
  destruct (_flesch_kincaid_grade_total
              (Z.of_nat (Nat.max (length (sent_tokenize (or_str response ""))) 1))
              (Z.of_nat (length tokens))
              (Z.of_nat (sum_list (_count_syllables <$> tokens)))) as [fk Efk].
  destruct (_repetition_penalty_total tokens) as [rp Erp].
  exists fk, rp. split; [|split; assumption].
  destruct (size (prompt_keywords_of prompt) =? 0) eqn:Ekw; cbn [negb bind].
  - rewrite Efk. cbn [bind]. rewrite Erp. reflexivity.
  - apply Nat.eqb_neq in Ekw.
    rewrite truediv_ok by (apply float_of_nat_nonzero; exact Ekw).
    cbn [bind]. rewrite Efk. cbn [bind]. rewrite Erp. reflexivity.
Qed.

(** X1. On every pair of inputs [calculate_metrics] returns a record (no
    division by zero escapes its guards) whose percentages are within
    [0, 100], whose repetition penalty is below 100, and whose
    Flesch-Kincaid grade is above -3.79. *)
Theorem calculate_metrics_in_range (prompt response : option string) :
  exists m, calculate_metrics prompt response = inr m
            /\ (0 <= lexical_diversity m <= 100)%Q
            /\ (0 <= query_coverage m <= 100)%Q
            /\ (- (3.79) < flesch_kincaid_grade m)%Q
            /\ (0 <= repetition_penalty m)%Q
            /\ (repetition_penalty m < 100)%Q.
Proof.
  destruct (response_tokens response) as [|w ws] eqn:Etok.
  - exists zero_record.
    split; [apply calculate_metrics_no_tokens; exact Etok|].
    cbn. repeat split; discriminate.
  - assert (Htok : response_tokens response <> []) by (rewrite Etok; discriminate).
    destruct (calculate_metrics_fields prompt response Htok)
      as (fk & rp & E & Efk & Erp).
    eexists. split; [exact E|].
    cbn [lexical_diversity query_coverage flesch_kincaid_grade repetition_penalty].
    set (tokens := response_tokens response) in *.
    assert (Hlen : length tokens <> 0) by (destruct tokens; simpl; congruence).
    split; [|split; [|split]].
    + rewrite size_list_to_set_dups.
      destruct (percent_facts (length (remove_dups tokens)) (length tokens) Hlen
                  (length_remove_dups_le tokens)) as (H0 & H100 & _).
      split; assumption.
    + cbv zeta. destruct (size (prompt_keywords_of prompt) =? 0) eqn:Ekw.
      * split; discriminate.
      * apply Nat.eqb_neq in Ekw.
        destruct (percent_facts
                    (size (prompt_keywords_of prompt ∩ list_to_set tokens))
                    (size (prompt_keywords_of prompt)) Ekw) as (H0 & H100 & _).
        { apply subseteq_size, intersection_subseteq_l. }
        split; assumption.
    + eapply _flesch_kincaid_grade_lower; [| | |exact Efk]; try lia.
      apply Nat2Z.inj_le, sum_syllables_ge.
    + destruct (_repetition_penalty_bounds tokens) as (r & Er & H0 & H100).
      rewrite Erp in Er. injection Er as <-. split; assumption.
Qed.

End EngineMore.

Section QueryCoverage.

Variable word_tokenize : string -> list string.
Variable sent_tokenize : string -> list string.
Variable stopwords_english : list string.

Abbreviation calculate_metrics :=
  (Metrics.calculate_metrics word_tokenize sent_tokenize stopwords_english).
Abbreviation prompt_keywords_of :=
  (Metrics.prompt_keywords_of word_tokenize stopwords_english).
Abbreviation response_tokens := (Metrics.response_tokens word_tokenize).

(** X2. When the prompt has keywords and the response has tokens,
    [query_coverage] is the percentage of keywords found among the response
    tokens: 100 exactly when every keyword is found, 0 exactly when none
    is. *)
Theorem query_coverage_spec (prompt response : option string) :
  response_tokens response <> [] ->
  prompt_keywords_of prompt <> ∅ ->
  exists m,
    calculate_metrics prompt response = inr m
    /\ (query_coverage m ==
        float_of_nat (size (prompt_keywords_of prompt
                            ∩ list_to_set (response_tokens response)))
        / float_of_nat (size (prompt_keywords_of prompt)) * 100)%Q
    /\ ((query_coverage m == 100)%Q <->
        forall k, k ∈ prompt_keywords_of prompt -> k ∈ response_tokens response)
    /\ ((query_coverage m == 0)%Q <->
        forall k, k ∈ prompt_keywords_of prompt -> k ∉ response_tokens response).
Proof.
  intros Htok Hkw.
  destruct (calculate_metrics_tokens word_tokenize sent_tokenize
              stopwords_english prompt response Htok) as (fk & rp & E).
  eexists. split; [exact E|]. cbn [query_coverage]. cbv zeta.
  set (kw := prompt_keywords_of prompt) in *.
  set (R := list_to_set (response_tokens response) : gset string).
  assert (Hsz : size kw <> 0).
  { intros Hz. apply Hkw. apply leibniz_equiv, size_empty_iff. exact Hz. }
  assert ((size kw =? 0) = false) as -> by (apply Nat.eqb_neq; exact Hsz).
  destruct (percent_facts (size (kw ∩ R)) (size kw) Hsz)
    as (_ & _ & H100 & H0); [apply subseteq_size, intersection_subseteq_l|].
  cbv zeta in H100, H0.
  split; [reflexivity|]. split.
  - rewrite H100. split.
    + intros Hsize k Hk.
      assert (Heq : kw ∩ R = kw).
      { apply set_subseteq_size_eq; [apply intersection_subseteq_l | lia]. }
      rewrite <- Heq in Hk. apply elem_of_intersection in Hk as [_ Hk].
      apply elem_of_list_to_set in Hk. exact Hk.
    + intros Hall. f_equal. apply leibniz_equiv. intros k.
      rewrite elem_of_intersection. unfold R. rewrite elem_of_list_to_set.
      split; [tauto | intros Hk; split; [exact Hk | apply Hall, Hk]].
  - rewrite H0. rewrite size_empty_iff. split.
    + intros Hempty k Hk Hin.
      apply (not_elem_of_empty (C:=gset string) k). rewrite <- Hempty.
      apply elem_of_intersection. split; [exact Hk|].
      apply elem_of_list_to_set. exact Hin.
    + intros Hnone k. split; [|intros Hk; exfalso; revert Hk; apply not_elem_of_empty].
      intros Hk. apply elem_of_intersection in Hk as [Hk HR].
      apply elem_of_list_to_set in HR. exfalso. exact (Hnone k Hk HR).
Qed.

Lemma or_str_Some (s : string) : or_str (Some s) "" = s.
Proof. destruct s; reflexivity. Qed.

(** X5. The letter case of the prompt changes no metric. *)
Theorem prompt_case_insensitive (prompt : string) (response : option string) :
  calculate_metrics (Some (lower prompt)) response
  = calculate_metrics (Some prompt) response.
Proof.
  assert (Hkw : prompt_keywords_of (Some (lower prompt))
                = prompt_keywords_of (Some prompt)).
  { unfold Metrics.prompt_keywords_of. rewrite !or_str_Some, lower_idem.
    reflexivity. }
  unfold Metrics.calculate_metrics. rewrite Hkw. reflexivity.
Qed.

End QueryCoverage.

Lemma query_coverage_spec_witness :
  exists m,
    run_metrics (Some "describe the cat and dog") (Some "A cat sat.") = inr m
    /\ (query_coverage m == 100 / 3)%Q.
Proof.
  destruct (query_coverage_spec ws_word_tokenize dot_sent_tokenize
              some_stopwords (Some "describe the cat and dog")
              (Some "A cat sat."))
    as (m & E & Hqc & _).
  - vm_compute. discriminate.
  - apply (bool_decide_unpack _). vm_compute. exact I.
  - exists m. split; [exact E|]. rewrite Hqc. vm_compute. reflexivity.
Defined.

(** * Further properties of the aggregation layer *)

Section RoundingBounds.

Lemma round_half_even_bounds (x : Q) (a b : Z) :
  (inject_Z a <= x)%Q -> (x <= inject_Z b)%Q ->
  (a <= round_half_even x <= b)%Z.
Proof.
  intros Ha Hb. unfold round_half_even.
  pose proof (Qfloor_le x) as Hfl.
  assert (Haf : (a <= Qfloor x)%Z).
  { rewrite <- (Qfloor_Z a). apply Qfloor_resp_le. exact Ha. }
  assert (Hfb : (Qfloor x <= b)%Z).
  { rewrite Zle_Qle. eapply Qle_trans; eassumption. }
  assert (Hstrict : (inject_Z (Qfloor x) < x)%Q -> (Qfloor x + 1 <= b)%Z).
  { intros Hlt. assert (Hlt' : (inject_Z (Qfloor x) < inject_Z b)%Q)
      by (eapply Qlt_le_trans; eassumption).
    rewrite <- Zlt_Qlt in Hlt'. lia. }
  destruct (x - inject_Z (Qfloor x) ?= 1 # 2)%Q eqn:Ec.
  - apply Qeq_alt in Ec.
    destruct (Z.even (Qfloor x)); [lia|].
    split; [lia|]. apply Hstrict. lra.
  - lia.
  - apply Qgt_alt in Ec. split; [lia|]. apply Hstrict. lra.
Qed.

(** Rounding to two decimals does not leave an interval with integer
    ends. *)
Lemma round2_bounds (x : Q) (a b : Z) :
  (inject_Z a <= x)%Q -> (x <= inject_Z b)%Q ->
  (inject_Z a <= round2 x)%Q /\ (round2 x <= inject_Z b)%Q.
Proof.
  intros Ha Hb. unfold round2.
  destruct (round_half_even_bounds (x * 100) (a * 100) (b * 100)) as [Hlo Hhi].
  - rewrite inject_Z_mult. change (inject_Z 100) with 100%Q. lra.
  - rewrite inject_Z_mult. change (inject_Z 100) with 100%Q. lra.
  - rewrite Zle_Qle, inject_Z_mult in Hlo, Hhi.
    change (inject_Z 100) with 100%Q in *.
    split.
    + apply Qle_shift_div_l; [reflexivity | exact Hlo].
    + apply Qle_shift_div_r; [reflexivity | exact Hhi].
Qed.

Lemma epsilon_pos : (0 < epsilon)%Q.
Proof. reflexivity. Qed.

Lemma norm_range_pos (lo hi : Q) :
  (lo <= hi)%Q ->
  (0 < (if negb (Qeq_bool (hi - lo) 0) then hi - lo else epsilon))%Q.
Proof.
  intros Hle. destruct (Qeq_bool (hi - lo) 0) eqn:E; cbn [negb].
  - apply epsilon_pos.
  - apply Qeq_bool_neq in E. apply Qnot_le_lt. intros Hc. apply E. lra.
Qed.

Lemma norm_high_on_scale (x lo hi : Q) :
  (lo <= x)%Q -> (x <= hi)%Q ->
  (0 <= 100 * (x - lo)
        / (if negb (Qeq_bool (hi - lo) 0) then hi - lo else epsilon) <= 100)%Q.
Proof.
  intros Hlo Hhi.
  pose proof (norm_range_pos lo hi ltac:(lra)) as Hpos.
  destruct (Qeq_bool (hi - lo) 0) eqn:E; cbn [negb] in *.
  - apply Qeq_bool_iff in E.
    assert (E0 : (100 * (x - lo) == 0)%Q) by lra.
    rewrite E0. unfold Qdiv. rewrite Qmult_0_l. split; discriminate.
  - split.
    + apply Qle_shift_div_l; [exact Hpos | lra].
    + apply Qle_shift_div_r; [exact Hpos | lra].
Qed.

Lemma norm_low_on_scale (x lo hi : Q) :
  (lo <= x)%Q -> (x <= hi)%Q ->
  (0 <= 100 * (hi - x)
        / (if negb (Qeq_bool (hi - lo) 0) then hi - lo else epsilon) <= 100)%Q.
Proof.
  intros Hlo Hhi.
  pose proof (norm_range_pos lo hi ltac:(lra)) as Hpos.
  destruct (Qeq_bool (hi - lo) 0) eqn:E; cbn [negb] in *.
  - apply Qeq_bool_iff in E.
    assert (E0 : (100 * (hi - x) == 0)%Q) by lra.
    rewrite E0. unfold Qdiv. rewrite Qmult_0_l. split; discriminate.
  - split.
    + apply Qle_shift_div_l; [exact Hpos | lra].
    + apply Qle_shift_div_r; [exact Hpos | lra].
Qed.

End RoundingBounds.

Section Scale.

(** X13. [_min_max] returns [(0.0, 0.0)] when no value is left after dropping the
    [None]s; otherwise its pair bounds every value from below and above,
    and is ordered. *)
Theorem _min_max_bounds (vals : list (option Q)) :
  ((_min_max vals).1 <= (_min_max vals).2)%Q
  /\ (forall v, Some v ∈ vals ->
        ((_min_max vals).1 <= v)%Q /\ (v <= (_min_max vals).2)%Q)
  /\ (omap id vals = [] -> _min_max vals = (0, 0)%Q)
  /\ (omap id vals <> [] ->
      (_min_max vals).1 ∈ omap id vals /\ (_min_max vals).2 ∈ omap id vals).
Proof.
  destruct (omap id vals) as [|v0 vs] eqn:E.
  - assert (Hmm : _min_max vals = (0, 0)%Q) by (unfold _min_max; rewrite E; reflexivity).
    rewrite Hmm. cbn [fst snd].
    split; [discriminate|]. split; [|split; [reflexivity | congruence]].
    intros v Hv. exfalso.
    assert (Hin : v ∈ omap id vals)
      by (apply list_elem_of_omap; exists (Some v); split; [exact Hv | reflexivity]).
    rewrite E in Hin. inversion Hin.
  - assert (Hmm : _min_max vals = (min_list v0 vs, max_list v0 vs))
      by (unfold _min_max; rewrite E; reflexivity).
    rewrite Hmm. cbn [fst snd].
    destruct (min_list_spec vs v0) as [Hmin Hminall].
    destruct (max_list_spec vs v0) as [Hmax Hmaxall].
    rewrite Forall_forall in Hminall, Hmaxall.
    split; [|split; [|split; [discriminate | intros _; split; assumption]]].
    + eapply Qle_trans; [apply (Hminall v0); left | apply (Hmaxall v0); left].
    + intros v Hv.
      assert (Hin : v ∈ v0 :: vs).
      { rewrite <- E. apply list_elem_of_omap.
        exists (Some v). split; [exact Hv | reflexivity]. }
      split; [apply Hminall | apply Hmaxall]; exact Hin.
Qed.

Lemma normalized_from_on_scale {G} (rows : list (AggregateRow G))
    (view : list (NormalizedRow G)) :
  normalized_from rows view ->
  Forall (fun o => norms_on_scale (norms o)) view.
Proof.
  intros Hfrom. apply Forall_forall. intros o Ho.
  destruct (Forall2_elem_of_r _ _ _ _ Hfrom Ho)
    as (r & Hr & Hrow & ld & qc & fk & rp & Ea & En).
  set (fk_vals := (fun r => avg_fk_grade (averages r)) <$> rows) in *.
  set (rp_vals := (fun r => avg_repetition_penalty (averages r)) <$> rows) in *.
  assert (Hfk : Some fk ∈ fk_vals).
  { unfold fk_vals. apply list_elem_of_fmap. exists r.
    split; [rewrite Ea; reflexivity | exact Hr]. }
  assert (Hrp : Some rp ∈ rp_vals).
  { unfold rp_vals. apply list_elem_of_fmap. exists r.
    split; [rewrite Ea; reflexivity | exact Hr]. }
  assert (Hfk' : fk ∈ omap id fk_vals)
    by (apply list_elem_of_omap; exists (Some fk); split; [exact Hfk | reflexivity]).
  assert (Hrp' : rp ∈ omap id rp_vals)
    by (apply list_elem_of_omap; exists (Some rp); split; [exact Hrp | reflexivity]).
  destruct (_min_max_spec fk_vals) as [[_ Hfk1] [_ Hfk2]];
    [intros E; rewrite E in Hfk'; inversion Hfk'|].
  destruct (_min_max_spec rp_vals) as [[_ Hrp1] [_ Hrp2]];
    [intros E; rewrite E in Hrp'; inversion Hrp'|].
  rewrite Forall_forall in Hfk1, Hfk2, Hrp1, Hrp2.
  specialize (Hfk1 _ Hfk'). specialize (Hfk2 _ Hfk').
  specialize (Hrp1 _ Hrp'). specialize (Hrp2 _ Hrp').
  unfold norms_on_scale. rewrite En.
  cbn [norm_fk_grade norm_repetition_penalty].
  split.
  - apply (round2_bounds _ 0 100); apply norm_high_on_scale; assumption.
  - apply (round2_bounds _ 0 100); apply norm_low_on_scale; assumption.
Qed.

End Scale.

Section AnalyticsMore.

(** X9. On every table [get_analytics] returns a payload, never an exception,
    and in both views the rescaled Flesch-Kincaid grade and the rescaled
    repetition penalty of every row are between 0 and 100. *)
Theorem analytics_norms_on_scale (db : list Evaluation.t) :
  exists p, get_analytics db = inr p
            /\ Forall (fun o => norms_on_scale (norms o)) (scatter_data p)
            /\ Forall (fun o => norms_on_scale (norms o)) (model_comparison p).
Proof.
  destruct (get_analytics_ok db) as (sc & cmp & E & Hsc & Hcmp).
  eexists. split; [exact E|]. cbn [scatter_data model_comparison].
  split; eapply normalized_from_on_scale; eassumption.
Qed.

Lemma rescaled_extremes {G} (view : list (NormalizedRow G)) :
  rescaled view -> extremes_to_ends view.
Proof.
  intros Hres o Ho. destruct (Hres o Ho) as [Hfk Hrp].
  assert (Hb : forall lo hi : Q, ~ (lo == hi)%Q -> Qeq_bool lo hi = false).
  { intros lo hi Hne. destruct (Qeq_bool lo hi) eqn:E; [|reflexivity].
    apply Qeq_bool_iff in E. contradiction. }
  split; intros x lo hi Ex Hlo Hhi Hne.
  - rewrite (Hfk x lo hi Ex Hlo Hhi), (Hb lo hi Hne). split; intros Exl.
    + apply round2_0. rewrite Exl. unfold Qdiv. ring.
    + assert (E : (100 * (x - lo) / (hi - lo) == 100)%Q)
        by (rewrite Exl; field; lra).
      rewrite E. reflexivity.
  - rewrite (Hrp x lo hi Ex Hlo Hhi), (Hb lo hi Hne). split; intros Exl.
    + assert (E : (100 * (hi - x) / (hi - lo) == 100)%Q)
        by (rewrite Exl; field; lra).
      rewrite E. reflexivity.
    + apply round2_0. rewrite Exl. unfold Qdiv. ring.
Qed.

(** X10. In each view whose group averages of a metric differ, the group with the
    highest Flesch-Kincaid average gets 100 and the lowest 0, and the group
    with the lowest repetition average gets 100 and the highest 0. *)
Theorem analytics_extremes (db : list Evaluation.t) :
  exists p, get_analytics db = inr p
            /\ extremes_to_ends (scatter_data p)
            /\ extremes_to_ends (model_comparison p).
Proof.
  destruct (get_analytics_ok db) as (sc & cmp & E & Hsc & Hcmp).
  eexists. split; [exact E|]. cbn [scatter_data model_comparison].
  split; apply rescaled_extremes; eapply normalized_from_rescaled; eassumption.
Qed.

(** X11. Neither rescaling function can divide by zero: on a number they return
    a value whatever the range, the epsilon standing in for an empty one;
    on [None] they raise [TypeError]. *)
Theorem norm_never_divides_by_zero (x vmin vmax : Q) :
  _norm_high_is_better (Some x) vmin vmax
  = inr (100 * (x - vmin)
         / (if Qeq_bool vmax vmin then epsilon else vmax - vmin))%Q
  /\ _norm_low_is_better (Some x) vmin vmax
     = inr (100 * (vmax - x)
            / (if Qeq_bool vmax vmin then epsilon else vmax - vmin))%Q
  /\ _norm_high_is_better None vmin vmax = inl TypeError
  /\ _norm_low_is_better None vmin vmax = inl TypeError.
Proof.
  unfold _norm_high_is_better, _norm_low_is_better.
  cbn [sub_l sub_r bind ret].
  rewrite !truediv_ok by apply range_nonzero.
  assert (Hb : Qeq_bool (vmax - vmin) 0 = Qeq_bool vmax vmin).
  { destruct (Qeq_bool vmax vmin) eqn:E.
    - apply Qeq_bool_iff in E. apply Qeq_bool_iff. lra.
    - apply Qeq_bool_neq in E.
      destruct (Qeq_bool (vmax - vmin) 0) eqn:E'; [|reflexivity].
      apply Qeq_bool_iff in E'. exfalso. apply E. lra. }
  rewrite Hb. destruct (Qeq_bool vmax vmin); repeat split; reflexivity.
Qed.

(** X12. Over a range that is not empty, the two rescalings of the same value
    add up to 100. *)
Theorem norm_high_low_complementary (x vmin vmax : Q) :
  ~ (vmax == vmin)%Q ->
  exists h l,
    _norm_high_is_better (Some x) vmin vmax = inr h
    /\ _norm_low_is_better (Some x) vmin vmax = inr l
    /\ (h + l == 100)%Q.
Proof.
  intros Hne.
  unfold _norm_high_is_better, _norm_low_is_better.
  cbn [sub_l sub_r bind ret].
  rewrite !truediv_ok by apply range_nonzero.
  assert (Qeq_bool (vmax - vmin) 0 = false) as ->.
  { destruct (Qeq_bool (vmax - vmin) 0) eqn:E; [|reflexivity].
    apply Qeq_bool_iff in E. exfalso. apply Hne. lra. }
  cbn [negb]. eexists _, _. split; [reflexivity|]. split; [reflexivity|].
  field. lra.
Qed.

End AnalyticsMore.

Lemma norm_high_low_complementary_witness :
  exists h l,
    _norm_high_is_better (Some 7%Q) 4%Q 10%Q = inr h
    /\ _norm_low_is_better (Some 7%Q) 4%Q 10%Q = inr l
    /\ (h + l == 100)%Q.
Proof.
  apply (norm_high_low_complementary 7%Q 4%Q 10%Q). discriminate.
Defined.

Section Partition.

Context {K A : Type} (same : K -> K -> bool) (key : A -> K).

Lemma add_to_group_sizes (k : K) (r : A) (groups : list (K * list A)) :
  sum_list ((fun g => length g.2) <$> add_to_group same k r groups)
  = S (sum_list ((fun g => length g.2) <$> groups)).
Proof.
  induction groups as [|[k' rs] groups IH]; cbn [add_to_group].
  - reflexivity.
  - destruct (same k' k).
    + rewrite !fmap_cons. cbn [snd].
      change (length (rs ++ [r]) + sum_list ((fun g => length g.2) <$> groups)
              = S (length rs + sum_list ((fun g => length g.2) <$> groups))).
      rewrite length_app. simpl. lia.
    + rewrite !fmap_cons.
      change (length rs + sum_list ((fun g => length g.2)
                                    <$> add_to_group same k r groups)
              = S (length rs + sum_list ((fun g => length g.2) <$> groups))).
      rewrite IH. lia.
Qed.

Lemma sql_group_by_sizes (rows : list A) :
  sum_list ((fun g => length g.2) <$> sql_group_by same key rows)
  = length rows.
Proof.
  unfold sql_group_by.
  assert (Hgen : forall groups,
    sum_list ((fun g => length g.2)
              <$> fold_left (fun groups r => add_to_group same (key r) r groups)
                            rows groups)
    = sum_list ((fun g : K * list A => length g.2) <$> groups) + length rows).
  { induction rows as [|r rows IH]; intros groups; cbn [fold_left length].
    - lia.
    - rewrite IH, add_to_group_sizes. lia. }
  rewrite Hgen. reflexivity.
Qed.

Lemma add_to_group_keys (k : K) (r : A) (groups : list (K * list A)) :
  pairwise_unrelated same (fst <$> groups) ->
  pairwise_unrelated same (fst <$> add_to_group same k r groups)
  /\ forall x, Forall (fun y => same x y = false) (fst <$> groups) ->
               same x k = false ->
               Forall (fun y => same x y = false)
                      (fst <$> add_to_group same k r groups).
Proof.
  induction groups as [|[k' rs] groups IH]; cbn [add_to_group]; intros Hpw.
  - split; [split; constructor|].
    intros x _ Hx. constructor; [exact Hx | constructor].
  - destruct Hpw as [Hk' Hrest]. fold (@fmap list _) in *.
    destruct (same k' k) eqn:Ek.
    + split; [split; assumption|]. intros x Hx _. exact Hx.
    + destruct (IH Hrest) as [IH1 IH2]. split.
      * split; [apply IH2; assumption | exact IH1].
      * intros x Hx Hxk. rewrite fmap_cons in Hx.
        inversion Hx as [|? ? Hxk' Hxrest]; subst.
        rewrite fmap_cons. constructor; [exact Hxk'|].
        apply IH2; assumption.
Qed.

(** The keys of a [GROUP BY] are pairwise different. *)
Lemma sql_group_by_keys (rows : list A) :
  pairwise_unrelated same (fst <$> sql_group_by same key rows).
Proof.
  unfold sql_group_by.
  assert (Hgen : forall groups,
    pairwise_unrelated same (fst <$> groups) ->
    pairwise_unrelated same
      (fst <$> fold_left (fun groups r => add_to_group same (key r) r groups)
                         rows groups)).
  { induction rows as [|r rows IH]; intros groups Hg; cbn [fold_left].
    - exact Hg.
    - apply IH, add_to_group_keys, Hg. }
  apply Hgen. exact I.
Qed.

End Partition.

Section ScatterPartition.

(** X14. The scatter view partitions the table: no two of its rows share a
    (model, temperature, top_p), every row counts at least one record, and
    the [run_count]s add up to the number of records. *)
Theorem scatter_partitions_table (db : list Evaluation.t) :
  exists p,
    get_analytics db = inr p
    /\ pairwise_unrelated same_scatter_key (scatter_row_key <$> scatter_data p)
    /\ Forall (fun o => 1 <= run_count (group (row o))) (scatter_data p)
    /\ sum_list ((fun o => run_count (group (row o))) <$> scatter_data p)
       = length db.
Proof.
  destruct (get_analytics_ok db) as (sc & cmp & E & Hsc & _).
  eexists. split; [exact E|]. cbn [scatter_data].
  pose proof (normalized_from_rows _ _ Hsc) as Hrows.
  assert (Hkeys : scatter_row_key <$> sc
                  = fst <$> sql_group_by same_scatter_key scatter_key db).
  { change scatter_row_key
      with ((fun r : AggregateRow ScatterGroup =>
               (model (group r), temperature (group r), top_p (group r)))
            ∘ (@row ScatterGroup)).
    rewrite list_fmap_compose, Hrows. unfold query_scatter.
    rewrite <- list_fmap_compose. apply list_fmap_ext.
    intros i [[[m t] p] rows] _. reflexivity. }
  assert (Hcounts : (fun o => run_count (group (row o))) <$> sc
                    = (fun g => length g.2)
                      <$> sql_group_by same_scatter_key scatter_key db).
  { change (fun o : NormalizedRow ScatterGroup => run_count (group (row o)))
      with ((fun r : AggregateRow ScatterGroup => run_count (group r))
            ∘ (@row ScatterGroup)).
    rewrite list_fmap_compose, Hrows. unfold query_scatter.
    rewrite <- list_fmap_compose. apply list_fmap_ext.
    intros i [[[m t] p] rows] _. reflexivity. }
  split; [rewrite Hkeys; apply sql_group_by_keys|].
  split; [|rewrite Hcounts; apply sql_group_by_sizes].
  apply Forall_fmap with (f := fun o : NormalizedRow ScatterGroup =>
                                 run_count (group (row o))).
  rewrite Hcounts. apply Forall_fmap.
  eapply Forall_impl; [apply sql_group_by_nonempty|].
  intros [k rows] Hne. simpl in *. destruct rows; simpl; [congruence | lia].
Qed.

End ScatterPartition.

(** * The mock-data script *)

Section Clip.

Lemma max2_spec (a b : Q) :
  (a <= MockData.max2 a b)%Q /\ (b <= MockData.max2 a b)%Q
  /\ (MockData.max2 a b = a \/ MockData.max2 a b = b).
Proof.
  unfold MockData.max2. destruct (Qle_bool b a) eqn:E.
  - apply Qle_bool_iff in E. repeat split; auto using Qle_refl.
  - assert (Hlt : (a < b)%Q).
    { apply Qnot_le_lt. intros H. apply Qle_bool_iff in H. congruence. }
    repeat split; auto using Qle_refl, Qlt_le_weak.
Qed.

Lemma min2_spec (a b : Q) :
  (MockData.min2 a b <= a)%Q /\ (MockData.min2 a b <= b)%Q
  /\ (MockData.min2 a b = a \/ MockData.min2 a b = b).
Proof.
  unfold MockData.min2. destruct (Qle_bool a b) eqn:E.
  - apply Qle_bool_iff in E. repeat split; auto using Qle_refl.
  - assert (Hlt : (b < a)%Q).
    { apply Qnot_le_lt. intros H. apply Qle_bool_iff in H. congruence. }
    repeat split; auto using Qle_refl, Qlt_le_weak.
Qed.

Lemma _clip_between (val lo hi : Q) :
  (lo <= hi)%Q ->
  (lo <= MockData._clip val lo hi)%Q /\ (MockData._clip val lo hi <= hi)%Q.
Proof.
  intros Hle. unfold MockData._clip.
  destruct (max2_spec lo (MockData.min2 hi val)) as (H1 & H2 & [E|E]);
  destruct (min2_spec hi val) as (H3 & H4 & _);
  rewrite E in *; split; auto using Qle_refl.
Qed.

(** X15. [_clip] keeps a value inside [lo, hi]: it leaves a value of the
    interval as it is, replaces a smaller one by [lo] and a larger one by
    [hi]; with the bounds the wrong way round it returns [lo]. *)
Theorem clip_spec (val lo hi : Q) :
  ((lo <= hi)%Q ->
   (lo <= MockData._clip val lo hi)%Q /\ (MockData._clip val lo hi <= hi)%Q)
  /\ ((lo <= val)%Q -> (val <= hi)%Q -> (MockData._clip val lo hi == val)%Q)
  /\ ((val <= lo)%Q -> (lo <= hi)%Q -> (MockData._clip val lo hi == lo)%Q)
  /\ ((hi <= val)%Q -> (lo <= hi)%Q -> (MockData._clip val lo hi == hi)%Q)
  /\ ((hi < lo)%Q -> MockData._clip val lo hi = lo).
Proof.
  split; [apply _clip_between|].
  unfold MockData._clip, MockData.max2, MockData.min2.
  repeat split.
  - intros H1 H2.
    destruct (Qle_bool hi val) eqn:E1.
    + apply Qle_bool_iff in E1.
      destruct (Qle_bool hi lo) eqn:E2.
      * apply Qle_bool_iff in E2. lra.
      * lra.
    + destruct (Qle_bool val lo) eqn:E2; [|reflexivity].
      apply Qle_bool_iff in E2. lra.
  - intros H1 H2.
    destruct (Qle_bool hi val) eqn:E1.
    + apply Qle_bool_iff in E1.
      destruct (Qle_bool hi lo) eqn:E2; [reflexivity|]. lra.
    + destruct (Qle_bool val lo) eqn:E2; [reflexivity|].
      exfalso. apply Qle_bool_iff in H1. congruence.
  - intros H1 H2.
    destruct (Qle_bool hi val) eqn:E1.
    + destruct (Qle_bool hi lo) eqn:E2; [|reflexivity].
      apply Qle_bool_iff in E2. lra.
    + exfalso. apply Qle_bool_iff in H1. congruence.
  - intros Hlt.
    destruct (Qle_bool hi val) eqn:E1.
    + assert (Qle_bool hi lo = true) as ->
        by (apply Qle_bool_iff, Qlt_le_weak, Hlt). reflexivity.
    + assert (Hv : (val < hi)%Q).
      { apply Qnot_le_lt. intros H. apply Qle_bool_iff in H. congruence. }
      assert (Qle_bool val lo = true) as -> by (apply Qle_bool_iff; lra).
      reflexivity.
Qed.

End Clip.

Section Perturb.

Variable rng : Type.
Variable random : rng -> Q * rng.

Lemma uniform_run (a b : Q) (w : MockData.World rng) :
  exists u w',
    MockData.uniform rng random a b w = (inr u, w')
    /\ MockData.file rng w' = MockData.file rng w.
Proof.
  unfold MockData.uniform. destruct (random (MockData.gen rng w)) as [u g].
  eexists _, _. split; reflexivity.
Qed.

Lemma round2_clip (val lo hi : Q) (b : Z) :
  (lo == 0)%Q -> (hi == inject_Z b)%Q -> (0 <= b)%Z ->
  (0 <= round2 (MockData._clip val lo hi))%Q
  /\ (round2 (MockData._clip val lo hi) <= inject_Z b)%Q.
Proof.
  intros Hlo Hhi Hb.
  assert (Hle : (lo <= hi)%Q).
  { rewrite Hlo, Hhi. change 0%Q with (inject_Z 0). rewrite <- Zle_Qle. exact Hb. }
  destruct (_clip_between val lo hi Hle) as [H1 H2].
  apply (round2_bounds _ 0 b).
  - change (inject_Z 0) with 0%Q. rewrite <- Hlo. exact H1.
  - rewrite <- Hhi. exact H2.
Qed.

(** The four two-decimal roundings of clipped values that make up a
    perturbed record. *)
Lemma perturb_metrics_run (base : MetricRecord) (temperature top_p : Q)
    (w : MockData.World rng) :
  exists v_ld v_qc v_fk v_rp w',
    MockData.perturb_metrics rng random base temperature top_p w
    = (inr {| lexical_diversity := round2 (MockData._clip v_ld 0.0 100.0);
              query_coverage := round2 (MockData._clip v_qc 0.0 100.0);
              flesch_kincaid_grade := round2 (MockData._clip v_fk 0.0 18.0);
              repetition_penalty := round2 (MockData._clip v_rp 0.0 100.0) |},
       w')
    /\ MockData.file rng w' = MockData.file rng w.
Proof.
  unfold MockData.perturb_metrics, MockData.pbind.
  destruct (uniform_run (-2.0) 2.0 w) as (n_ld & w1 & E1 & F1). rewrite E1.
  destruct (uniform_run (-2.0) 2.0 w1) as (n_qc & w2 & E2 & F2). rewrite E2.
  destruct (uniform_run (-0.6) 0.6 w2) as (n_fk & w3 & E3 & F3). rewrite E3.
  destruct (uniform_run (-3.0) 3.0 w3) as (n_rp & w4 & E4 & F4). rewrite E4.
  cbv zeta. unfold MockData.pret.
  eexists _, _, _, _, _. split; [reflexivity | congruence].
Qed.

Lemma round2_clip_100 (v : Q) :
  (0 <= round2 (MockData._clip v 0.0 100.0))%Q
  /\ (round2 (MockData._clip v 0.0 100.0) <= 100)%Q.
Proof. apply (round2_clip v 0.0 100.0 100); [reflexivity | reflexivity | lia]. Qed.

Lemma round2_clip_18 (v : Q) :
  (0 <= round2 (MockData._clip v 0.0 18.0))%Q
  /\ (round2 (MockData._clip v 0.0 18.0) <= 18)%Q.
Proof. apply (round2_clip v 0.0 18.0 18); [reflexivity | reflexivity | lia]. Qed.

(** X16. Whatever the base metrics, the parameters and the noise drawn,
    [perturb_metrics] returns percentages within [0, 100] and a grade within
    [0, 18], all with two decimals, and writes nothing to the file. *)
Theorem perturb_metrics_in_range (base : MetricRecord) (temperature top_p : Q)
    (w : MockData.World rng) :
  exists m w',
    MockData.perturb_metrics rng random base temperature top_p w = (inr m, w')
    /\ MockData.file rng w' = MockData.file rng w
    /\ (0 <= lexical_diversity m <= 100)%Q
    /\ (0 <= query_coverage m <= 100)%Q
    /\ (0 <= flesch_kincaid_grade m <= 18)%Q
    /\ (0 <= repetition_penalty m <= 100)%Q
    /\ two_decimals (lexical_diversity m)
    /\ two_decimals (query_coverage m)
    /\ two_decimals (flesch_kincaid_grade m)
    /\ two_decimals (repetition_penalty m).
Proof.
  destruct (perturb_metrics_run base temperature top_p w)
    as (v_ld & v_qc & v_fk & v_rp & w' & E & F).
  eexists _, w'. split; [exact E|]. split; [exact F|].
  cbn [lexical_diversity query_coverage flesch_kincaid_grade repetition_penalty].
  split; [apply round2_clip_100|]. split; [apply round2_clip_100|].
  split; [apply round2_clip_18|]. split; [apply round2_clip_100|].
  repeat split; apply round2_two_decimals.
Qed.

End Perturb.

Section MockEngine.

Variable word_tokenize : string -> list string.
Variable sent_tokenize : string -> list string.
Variable stopwords_english : list string.

Lemma mock_count_syllables_eq (word : string) :
  MockData._count_syllables word = Metrics._count_syllables word.
Proof. reflexivity. Qed.

Lemma mock_flesch_kincaid_grade_eq (s w y : Z) :
  MockData._flesch_kincaid_grade s w y = Metrics._flesch_kincaid_grade s w y.
Proof. reflexivity. Qed.

(** The script's single-scale penalty is the app's n-gram ratio. *)
Lemma mock_repetition_penalty_eq (tokens : list string) (n : nat) :
  MockData._repetition_penalty tokens n = _ratio_for_n tokens n.
Proof.
  unfold MockData._repetition_penalty, _ratio_for_n, ngrams_of.
  destruct (length tokens <? n); [reflexivity|].
  destruct (length _) as [|k]; reflexivity.
Qed.

(** X17. The script's [calculate_metrics] returns the app's lexical diversity,
    query coverage and Flesch-Kincaid grade rounded to two decimals; its
    repetition penalty is the rounded trigram ratio, without the bigram
    fallback, so it is the app's rounded penalty when the text has 50
    tokens or more or has a repeated trigram. *)
Theorem mock_metrics_round_app (prompt response : string) :
  exists m r3 m',
    Metrics.calculate_metrics word_tokenize sent_tokenize stopwords_english
      (Some prompt) (Some response) = inr m
    /\ _ratio_for_n (word_tokenize (lower response)) 3 = inr r3
    /\ MockData.calculate_metrics word_tokenize sent_tokenize
         stopwords_english prompt response = inr m'
    /\ (lexical_diversity m' == round2 (lexical_diversity m))%Q
    /\ (query_coverage m' == round2 (query_coverage m))%Q
    /\ (flesch_kincaid_grade m' == round2 (flesch_kincaid_grade m))%Q
    /\ (repetition_penalty m' == round2 r3)%Q
    /\ (50 <= length (word_tokenize (lower response)) \/ ~ (r3 == 0)%Q ->
        (repetition_penalty m' == round2 (repetition_penalty m))%Q).
Proof.
  assert (Htoks : Metrics.response_tokens word_tokenize (Some response)
                  = word_tokenize (lower response))
    by (unfold Metrics.response_tokens; rewrite or_str_Some; reflexivity).
  destruct (_ratio_for_n_range (word_tokenize (lower response)) 3)
    as (r3 & E3 & P3 & _); [lia|].
  destruct (word_tokenize (lower response)) as [|w0 ws] eqn:Etok.
  - exists zero_record, r3, zero_record.
    split; [apply calculate_metrics_no_tokens; exact Htoks|].
    split; [exact E3|].
    split; [unfold MockData.calculate_metrics; rewrite Etok; reflexivity|].
    assert (r3 = 0%Q) as -> by (cbv in E3; congruence).
    repeat split.
  - set (tokens := w0 :: ws) in *.
    assert (Htok : Metrics.response_tokens word_tokenize (Some response) <> [])
      by (rewrite Htoks; discriminate).
    destruct (calculate_metrics_fields word_tokenize sent_tokenize
                stopwords_english (Some prompt) (Some response) Htok)
      as (fk & rp & E & Efk & Erp).
    rewrite Htoks in E, Efk, Erp. rewrite or_str_Some in Efk.
    assert (Hlen : length tokens <> 0) by discriminate.
    assert (Hkw : Metrics.prompt_keywords_of word_tokenize stopwords_english
                    (Some prompt)
                  = list_to_set (word_tokenize (lower prompt))
                    ∖ list_to_set stopwords_english)
      by (unfold Metrics.prompt_keywords_of; rewrite or_str_Some; reflexivity).
    rewrite Hkw in E. cbv zeta in E.
    assert (Hmock : forall qc qc',
      (if negb (size (list_to_set (word_tokenize (lower prompt))
                      ∖ list_to_set stopwords_english : gset string) =? 0)
       then
         (c <- truediv
                 (float_of_nat
                    (size ((list_to_set (word_tokenize (lower prompt))
                            ∖ list_to_set stopwords_english)
                           ∩ list_to_set tokens : gset string)))
                 (float_of_nat
                    (size (list_to_set (word_tokenize (lower prompt))
                           ∖ list_to_set stopwords_english : gset string))) ;;
          ret (c * 100)%Q)%py
       else ret 100%Q) = inr qc ->
      qc' = round2 qc ->
      MockData.calculate_metrics word_tokenize sent_tokenize
        stopwords_english prompt response
      = inr {| lexical_diversity :=
                 round2 (float_of_nat (size (list_to_set tokens : gset string))
                         / float_of_nat (length tokens) * 100);
               query_coverage := qc';
               flesch_kincaid_grade := round2 fk;
               repetition_penalty := round2 r3 |}).
    { intros qc qc' Eqc ->.
      unfold MockData.calculate_metrics. rewrite Etok. fold tokens.
      assert ((length tokens =? 0) = false) as -> by (apply Nat.eqb_neq; exact Hlen).
      cbn [negb]. rewrite Eqc.
      rewrite !truediv_ok by (apply float_of_nat_nonzero; exact Hlen).
      cbn [bind].
      change (MockData._count_syllables) with (Metrics._count_syllables).
      rewrite mock_flesch_kincaid_grade_eq, Efk, mock_repetition_penalty_eq, E3.
      reflexivity. }
    assert (Hrp : 50 <= length tokens \/ ~ (r3 == 0)%Q -> rp = r3).
    { intros Hcase. revert Erp. unfold _repetition_penalty.
      rewrite E3. cbn [bind]. destruct Hcase as [H50|Hnz].
      - assert ((50 <=? length tokens) = true) as ->
          by (apply Nat.leb_le; exact H50).
        rewrite orb_true_r. intros [= <-]. reflexivity.
      - assert (Qle_bool r3 0 = false) as ->.
        { destruct (Qle_bool r3 0) eqn:El; [|reflexivity].
          apply Qle_bool_iff in El. exfalso. apply Hnz.
          apply Qle_antisym; assumption. }
        cbn [negb orb]. intros [= <-]. reflexivity. }
    destruct (size (list_to_set (word_tokenize (lower prompt))
                    ∖ list_to_set stopwords_english : gset string) =? 0) eqn:Ekw.
    + eexists _, r3, _. split; [exact E|]. split; [exact E3|].
      split; [apply (Hmock 100%Q); reflexivity|].
      cbn [lexical_diversity query_coverage flesch_kincaid_grade
           repetition_penalty].
      repeat (split; [reflexivity|]).
      intros Hcase. rewrite (Hrp Hcase). reflexivity.
    + apply Nat.eqb_neq in Ekw.
      eexists _, r3, _. split; [exact E|]. split; [exact E3|].
      split.
      { eapply Hmock; [|reflexivity]. cbn [negb].
        rewrite truediv_ok by (apply float_of_nat_nonzero; exact Ekw).
        reflexivity. }
      cbn [lexical_diversity query_coverage flesch_kincaid_grade
           repetition_penalty].
      repeat (split; [reflexivity|]).
      intros Hcase. rewrite (Hrp Hcase). reflexivity.
Qed.

End MockEngine.

Section Script.

Variable rng : Type.
Variable random : rng -> Q * rng.
Variable word_tokenize : string -> list string.
Variable sent_tokenize : string -> list string.
Variable stopwords_english : list string.
Variable load_dataset : nat -> list MockData.Item.

Abbreviation World := (MockData.World rng).
Abbreviation file := (MockData.file rng).

Lemma mock_calculate_metrics_total (prompt response : string) :
  exists m, MockData.calculate_metrics word_tokenize sent_tokenize
              stopwords_english prompt response = inr m.
Proof.
  unfold MockData.calculate_metrics.
  set (words := word_tokenize (lower response)).
  destruct (length words =? 0) eqn:Elen; [eexists; reflexivity|].
  apply Nat.eqb_neq in Elen. cbn [negb].
  destruct (_flesch_kincaid_grade_total
              (Z.of_nat (Nat.max (length (sent_tokenize response)) 1))
              (Z.of_nat (length words))
              (Z.of_nat (sum_list (MockData._count_syllables <$> words))))
    as [fk Efk].
  rewrite mock_flesch_kincaid_grade_eq, Efk, mock_repetition_penalty_eq.
  destruct (_ratio_for_n_spec words 3) as (r3 & E3 & _); [lia|]. rewrite E3.
  destruct (size _ =? 0) eqn:Ekw; cbn [negb].
  - rewrite !truediv_ok by (apply float_of_nat_nonzero; exact Elen).
    eexists; reflexivity.
  - apply Nat.eqb_neq in Ekw.
    rewrite !truediv_ok
      by (apply float_of_nat_nonzero; first [exact Elen | exact Ekw]).
    eexists; reflexivity.
Qed.

(** A loop whose every iteration appends data rows appends them all, in
    order. *)
Lemma for_appends {A} (xs : list A) (body : A -> MockData.Prog rng unit)
    (n : A -> nat) (P : A -> MockData.CsvRow -> Prop) :
  (forall x (w : World), x ∈ xs ->
     exists w' rows,
       body x w = (inr tt, w')
       /\ file w' = file w ++ (MockData.DataLine <$> rows)
       /\ length rows = n x /\ Forall (P x) rows) ->
  forall w : World,
    exists w' rows,
      MockData.for_ rng xs body w = (inr tt, w')
      /\ file w' = file w ++ (MockData.DataLine <$> rows)
      /\ length rows = sum_list (n <$> xs)
      /\ Forall (fun r => exists x, x ∈ xs /\ P x r) rows.
Proof.
  induction xs as [|x xs IH]; intros Hbody w.
  - exists w, []. cbn. rewrite app_nil_r. repeat split. constructor.
  - destruct (Hbody x w ltac:(left)) as (w1 & rows1 & E1 & F1 & L1 & P1).
    destruct (IH (fun y w' Hy => Hbody y w' ltac:(right; exact Hy)) w1)
      as (w2 & rows2 & E2 & F2 & L2 & P2).
    exists w2, (rows1 ++ rows2).
    split; [cbn [MockData.for_]; unfold MockData.pbind; rewrite E1; exact E2|].
    split; [rewrite F2, F1, fmap_app, app_assoc; reflexivity|].
    split.
    + rewrite length_app, L1, L2, fmap_cons. reflexivity.
    + apply Forall_app. split.
      * eapply Forall_impl; [exact P1|]. intros r Hr. exists x. split; [left | exact Hr].
      * eapply Forall_impl; [exact P2|]. intros r (y & Hy & Hr).
        exists y. split; [right; exact Hy | exact Hr].
Qed.

Lemma sum_list_const {A} (xs : list A) (c : nat) :
  sum_list ((fun _ => c) <$> xs) = length xs * c.
Proof.
  induction xs as [|x xs IH]; [reflexivity|].
  rewrite fmap_cons. cbn [length]. 
  change (c + sum_list ((fun _ => c) <$> xs) = S (length xs) * c).
  rewrite IH. lia.
Qed.

Lemma sum_list_kept (xs : list MockData.Item) (c : nat) :
  sum_list ((fun item => if kept_item item then c else 0) <$> xs)
  = length (List.filter kept_item xs) * c.
Proof.
  induction xs as [|x xs IH]; [reflexivity|].
  rewrite fmap_cons. cbn [List.filter].
  change ((if kept_item x then c else 0)
          + sum_list ((fun item => if kept_item item then c else 0) <$> xs)
          = length (if kept_item x then x :: List.filter kept_item xs
                    else List.filter kept_item xs) * c).
  rewrite IH. destruct (kept_item x); cbn [length]; lia.
Qed.

(** X18. The script rewrites the file as a header followed by one data row per
    kept prompt and grid point: every row carries the model name, a kept
    prompt, a rounded temperature and top_p of the grid, and metrics within
    the clipped ranges. *)
Theorem generate_mock_data_rows (num_prompts : nat)
    (grid_temps grid_top_ps : option (list Q)) (model_name : string)
    (w : World) :
  let temps := default [0.1; 0.3; 0.5; 0.7; 0.9]%Q grid_temps in
  let tops := default [0.2; 0.4; 0.6; 0.8; 1.0]%Q grid_top_ps in
  let kept := List.filter kept_item (load_dataset num_prompts) in
  exists w' rows,
    MockData.generate_mock_data rng random word_tokenize sent_tokenize
      stopwords_english load_dataset num_prompts grid_temps grid_top_ps
      model_name w = (inr tt, w')
    /\ file w' = MockData.HeaderLine MockData.headers
                  :: (MockData.DataLine <$> rows)
    /\ length rows = length kept * (length temps * length tops)
    /\ Forall (grid_row model_name (MockData.instruction <$> kept) temps tops)
              rows.
Proof.
  intros temps tops kept.
  unfold MockData.generate_mock_data.
  change (match grid_temps with Some g => g | None => _ end) with temps.
  change (match grid_top_ps with Some g => g | None => _ end) with tops.
  unfold MockData.pbind at 1 2. cbn [MockData.open_w MockData.writeheader].
  cbn [MockData.gen MockData.file app].
  set (w0 := {| MockData.gen := MockData.gen rng w;
                MockData.file := [MockData.HeaderLine MockData.headers] |}).
  match goal with |- context [MockData.for_ rng ?xs ?body w0] =>
    destruct (for_appends xs body
                (fun item => if kept_item item
                             then length temps * length tops else 0)
                (fun item r => kept_item item = true
                               /\ grid_row model_name [MockData.instruction item]
                                           temps tops r)) with (w := w0)
      as (w' & rows & E & F & L & HP)
  end.
  - intros item w1 _. unfold kept_item.
    destruct (MockData.is_empty (MockData.instruction item)
              || MockData.is_empty (MockData.response item)) eqn:Eskip.
    + exists w1, []. cbn. rewrite app_nil_r. repeat split. constructor.
    + cbn [negb]. unfold MockData.pbind at 1, MockData.lift.
      destruct (mock_calculate_metrics_total (MockData.instruction item)
                  (MockData.response item)) as [base Ebase].
      rewrite Ebase.
      match goal with |- context [MockData.for_ rng temps ?body w1] =>
        destruct (for_appends temps body (fun _ => length tops)
                    (fun t r => grid_row model_name [MockData.instruction item]
                                         [t] tops r)) with (w := w1)
          as (w2 & rows2 & E2 & F2 & L2 & HP2)
      end.
      * intros t w2 _.
        match goal with |- context [MockData.for_ rng tops ?body w2] =>
          destruct (for_appends tops body (fun _ => 1)
                      (fun p r => grid_row model_name
                                    [MockData.instruction item] [t] [p] r))
            with (w := w2) as (w3 & rows3 & E3 & F3 & L3 & HP3)
        end.
        -- intros p w3 _. unfold MockData.pbind.
           destruct (perturb_metrics_run rng random base t p w3)
             as (v1 & v2 & v3 & v4 & w4 & Ep & Fp).
           rewrite Ep. unfold MockData.writerow.
           eexists _, [_]. split; [reflexivity|].
           split; [cbn [MockData.file]; rewrite Fp; reflexivity|].
           split; [reflexivity|]. constructor; [|constructor].
           unfold grid_row, clipped.
           cbn [MockData.csv_model MockData.csv_prompt MockData.csv_temperature
                MockData.csv_top_p MockData.csv_metrics lexical_diversity
                query_coverage flesch_kincaid_grade repetition_penalty].
           split; [reflexivity|]. split; [left|].
           split; [left|]. split; [left|].
           split; [apply round2_clip_100|]. split; [apply round2_clip_100|].
           split; [apply round2_clip_18 | apply round2_clip_100].
        -- exists w3, rows3. split; [exact E3|]. split; [exact F3|].
           split; [rewrite L3, sum_list_const; lia|].
           eapply Forall_impl; [exact HP3|].
           intros r (p & Hp & Hm & Hpr & Ht & Hpp & Hc).
           split; [exact Hm|]. split; [exact Hpr|]. split; [exact Ht|].
           split; [|exact Hc].
           apply list_elem_of_fmap. apply list_elem_of_fmap in Hpp as (p' & -> & Hp').
           apply list_elem_of_singleton in Hp'. subst p'.
           exists p. split; [reflexivity | exact Hp].
      * exists w2, rows2. split; [exact E2|]. split; [exact F2|].
        split; [rewrite L2, sum_list_const; lia|].
        eapply Forall_impl; [exact HP2|].
        intros r (t & Ht & Hm & Hpr & Htt & Hpp & Hc).
        split; [reflexivity|].
        split; [exact Hm|]. split; [exact Hpr|].
        split; [|split; [exact Hpp | exact Hc]].
        apply list_elem_of_fmap. apply list_elem_of_fmap in Htt as (t' & -> & Ht').
        apply list_elem_of_singleton in Ht'. subst t'.
        exists t. split; [reflexivity | exact Ht].
  - exists w', rows. split; [exact E|]. split; [rewrite F; reflexivity|].
    split; [rewrite L; apply sum_list_kept|].
    eapply Forall_impl; [exact HP|].
    intros r (item & Hitem & Hk & Hm & Hpr & Ht & Hpp & Hc).
    split; [exact Hm|].
    split; [|split; [exact Ht | split; [exact Hpp | exact Hc]]].
    apply list_elem_of_singleton in Hpr. rewrite Hpr.
    apply list_elem_of_fmap. exists item. split; [reflexivity|].
    apply list_elem_of_In, filter_In. split; [apply list_elem_of_In, Hitem | exact Hk].
Qed.

End Script.

(** * Storing evaluations *)

Section StoreFacts.

Variable fresh_id : list Evaluation.t -> Z.

Lemma create_evaluation_appends (db : list Evaluation.t)
    (e : EvaluationCreate.t) :
  exists row, (Store.create_evaluation fresh_id db e).1 = db ++ [row]
              /\ seeded_from e row.
Proof.
  eexists. split; [reflexivity|]. repeat split.
Qed.

(** [add_all] appends one row per item of the batch, in order. *)
Lemma add_all_appends (batch : list EvaluationCreate.t) :
  forall db, exists rows,
    Store.add_all fresh_id db batch = db ++ rows
    /\ Forall2 seeded_from batch rows.
Proof.
  unfold Store.add_all.
  induction batch as [|e batch IH]; intros db.
  - exists []. rewrite app_nil_r. split; [reflexivity | constructor].
  - cbn [fold_left].
    destruct (create_evaluation_appends db e) as (row & -> & Hrow).
    destruct (IH (db ++ [row])) as (rows & -> & Hrows).
    exists (row :: rows). rewrite <- app_assoc.
    split; [reflexivity | constructor; assumption].
Qed.

End StoreFacts.

(** * The prompt-testing endpoint *)

Section RouterFacts.

Variable generate_content : string -> string -> Q -> Q -> Router.ApiOutcome.
Variable exn_message : exn -> string.
Variable word_tokenize : string -> list string.
Variable sent_tokenize : string -> list string.
Variable stopwords_english : list string.
Variable fresh_id : list Evaluation.t -> Z.

Abbreviation _call_google_ai :=
  (Router._call_google_ai generate_content exn_message word_tokenize
     sent_tokenize stopwords_english).
Abbreviation test_prompt :=
  (Router.test_prompt generate_content exn_message word_tokenize
     sent_tokenize stopwords_english fresh_id).

Lemma calculate_metrics_total (prompt response : option string) :
  exists m, calculate_metrics word_tokenize sent_tokenize stopwords_english
              prompt response = inr m.
Proof.
  destruct (Metrics.response_tokens word_tokenize response) as [|t ts] eqn:E.
  - exists zero_record. apply calculate_metrics_no_tokens. exact E.
  - destruct (calculate_metrics_tokens word_tokenize sent_tokenize
                stopwords_english prompt response) as (fk & rp & Em).
    + rewrite E. discriminate.
    + eexists. exact Em.
Qed.

(** X19. A call whose generation succeeds always comes back with the text and
    its metrics and no error (the metrics engine cannot make it fail); a
    call whose generation raises comes back with the error message and
    neither text nor metrics.  Both echo the parameters. *)
Theorem call_google_ai_outcome (model_name prompt : string) (temp top_p : Q) :
  Router.temperature (_call_google_ai model_name prompt temp top_p) = temp
  /\ Router.top_p (_call_google_ai model_name prompt temp top_p) = top_p
  /\ match generate_content model_name prompt temp top_p with
     | Router.Text text =>
         exists m,
           calculate_metrics word_tokenize sent_tokenize stopwords_english
             (Some prompt) (Some text) = inr m
           /\ _call_google_ai model_name prompt temp top_p
              = {| Router.temperature := temp; Router.top_p := top_p;
                   Router.output := Some text; Router.metrics := Some m;
                   Router.error := None |}
     | Router.Raised message =>
         _call_google_ai model_name prompt temp top_p
         = {| Router.temperature := temp; Router.top_p := top_p;
              Router.output := None; Router.metrics := None;
              Router.error := Some ("An API error occurred: " +:+ message) |}
     end.
Proof.
  unfold Router._call_google_ai.
  destruct (generate_content model_name prompt temp top_p) as [text|message].
  - destruct (calculate_metrics_total (Some prompt) (Some text)) as [m Em].
    rewrite Em. repeat split. exists m. split; reflexivity.
  - repeat split.
Qed.

Lemma store_results (payload : PromptTest.t) (results : list Router.CallResult) :
  forall db, exists rows,
    fold_left
      (fun db r =>
         match Router.metrics r with
         | Some m =>
             (Store.create_evaluation fresh_id db
                (Router.evaluation_of payload r m)).1
         | None => db
         end)
      results db
    = db ++ rows
    /\ Forall2 (stores payload) (with_metrics results) rows.
Proof.
  induction results as [|r results IH]; intros db.
  - exists []. rewrite app_nil_r. split; [reflexivity | constructor].
  - cbn [fold_left]. unfold with_metrics. cbn [omap list_omap].
    fold (with_metrics results).
    destruct (Router.metrics r) as [m|] eqn:Em; cbn [fmap option_fmap option_map].
    + destruct (create_evaluation_appends fresh_id db
                  (Router.evaluation_of payload r m)) as (row & Erow & Hrow).
      rewrite Erow.
      destruct (IH (db ++ [row])) as (rows & Erows & Hrows).
      exists (row :: rows). split.
      * rewrite Erows, <- app_assoc. reflexivity.
      * constructor; [|exact Hrows]. exact Hrow.
    + destruct (IH db) as (rows & Erows & Hrows).
      exists rows. split; assumption.
Qed.

(** X20. [test_prompt] answers with one result per parameter pair, in order,
    and appends to the table one row per result that has metrics, in order:
    the rows already there are kept, a failed call stores nothing, and each
    new row holds the request's prompt and model with the result's
    parameters and metrics. *)
Theorem test_prompt_persists_successes (payload : PromptTest.t)
    (db : list Evaluation.t) :
  exists rows,
    (test_prompt payload db).2 = db ++ rows
    /\ Forall2 (stores payload) (with_metrics (test_prompt payload db).1) rows
    /\ Forall2 (fun pair r =>
                  Router.temperature r = ParamPair.temperature pair
                  /\ Router.top_p r = ParamPair.top_p pair
                  /\ (is_Some (Router.metrics r) <->
                      exists text,
                        generate_content (PromptTest.model payload)
                          (PromptTest.prompt payload)
                          (ParamPair.temperature pair) (ParamPair.top_p pair)
                        = Router.Text text))
               (PromptTest.param_pairs payload) (test_prompt payload db).1.
Proof.
  unfold Router.test_prompt. cbn [fst snd].
  destruct (store_results payload
              ((fun pair =>
                  _call_google_ai (PromptTest.model payload)
                    (PromptTest.prompt payload)
                    (ParamPair.temperature pair) (ParamPair.top_p pair))
               <$> PromptTest.param_pairs payload) db) as (rows & E & H).
  exists rows. split; [exact E|]. split; [exact H|].
  apply Forall2_fmap_r, Forall_Forall2_diag, Forall_forall.
  intros pair _. unfold compose. cbv beta. unfold Router._call_google_ai.
  destruct (generate_content _ _ _ _) as [text|message] eqn:Eg.
  - destruct (calculate_metrics_total (Some (PromptTest.prompt payload))
                (Some text)) as [m Em].
    rewrite Em. cbn. repeat split; eauto.
  - cbn. repeat split.
    + intros [m Hm]. discriminate.
    + intros [text Ht]. discriminate.
Qed.

End RouterFacts.

(** * Seeding the table at startup *)

Section SeedFacts.

Variable parse_float : string -> option Q.
Variable read_csv : string -> option (list (gmap string string)).
Variable getenv : string -> option string.
Variable fresh_id : list Evaluation.t -> Z.

Abbreviation populate_db_from_csv :=
  (Startup.populate_db_from_csv parse_float read_csv getenv fresh_id).
Abbreviation row_to_model := (Startup.row_to_model parse_float).


(** A table that already has a row is left as it is, whatever the seed
    file holds or lacks, and nothing is raised. *)
Theorem populate_leaves_populated_table (csv_path : option string)
    (db : list Evaluation.t) :
  db <> [] -> populate_db_from_csv csv_path db = (db, None).
Proof.
  intros Hne. unfold Startup.populate_db_from_csv.
  destruct db; [congruence | reflexivity].
Qed.


(** X22. Seeding is idempotent: a second call over the same files leaves the
    table as the first call left it. *)
Theorem populate_idempotent (csv_path : option string)
    (db : list Evaluation.t) :
  (populate_db_from_csv csv_path (populate_db_from_csv csv_path db).1).1
  = (populate_db_from_csv csv_path db).1.
Proof.
  unfold Startup.populate_db_from_csv. cbv zeta.
  set (path := match csv_path with
               | None => default "mock_data.csv" (getenv "SEED_CSV_PATH")
               | Some p => p
               end).
  destruct db as [|r db]; [|reflexivity].
  destruct (read_csv path) as [csv_rows|] eqn:Eread; [|reflexivity].
  destruct (Startup.for_each row_to_model csv_rows) as [e|batch] eqn:Erows;
    [reflexivity|].
  destruct batch as [|b batch]; [reflexivity|].
  cbn [fst].
  destruct (add_all_appends fresh_id (b :: batch) []) as (rows & Eadd & Hrows).
  rewrite Eadd. inversion Hrows; subst. reflexivity.
Qed.

End SeedFacts.

Lemma populate_leaves_populated_table_witness :
  Startup.populate_db_from_csv (fun _ => None) (fun _ => None) (fun _ => None)
    (fun db => Z.of_nat (length db) + 1)%Z None db_one_group
  = (db_one_group, None).
Proof.
  apply (populate_leaves_populated_table (fun _ => None) (fun _ => None)
           (fun _ => None) (fun db => Z.of_nat (length db) + 1)%Z
           None db_one_group).
  discriminate.
Defined.

(** * The readability formula *)

Section FleschKincaid.

Lemma _flesch_kincaid_grade_value (s w y : Z) :
  (0 < s)%Z -> (0 < w)%Z ->
  _flesch_kincaid_grade s w y
  = inr (0.39 * (inject_Z w / inject_Z s)
         + 11.8 * (inject_Z y / inject_Z w) - 15.59)%Q.
Proof.
  intros Hs Hw. unfold _flesch_kincaid_grade.
  assert ((s <=? 0)%Z = false) as -> by (apply Z.leb_gt; lia).
  assert ((w <=? 0)%Z = false) as -> by (apply Z.leb_gt; lia).
  cbn [orb].
  assert (Hnz : forall z : Z, (0 < z)%Z -> ~ (inject_Z z == 0)%Q).
  { intros z Hz E. unfold Qeq in E. simpl in E. lia. }
  rewrite (truediv_ok _ _ (Hnz s Hs)). cbn [bind].
  rewrite (truediv_ok _ _ (Hnz w Hw)). reflexivity.
Qed.

Lemma Qdiv_le_mono_l (a b c : Q) :
  (0 < c)%Q -> (a <= b)%Q -> (a / c <= b / c)%Q.
Proof.
  intros Hc Hab. apply Qle_shift_div_l; [exact Hc|].
  assert (E : (a / c * c == a)%Q)
    by (field; intros E; rewrite E in Hc; revert Hc; apply Qlt_irrefl).
  rewrite E. exact Hab.
Qed.

(** X8. For a text with words and sentences, the grade does not decrease when
    the same words carry more syllables, nor when they are spread over
    fewer sentences; without words or sentences it is 0.0. *)
Theorem flesch_kincaid_monotone (s s' w y y' : Z) :
  (0 < s)%Z -> (s <= s')%Z -> (0 < w)%Z -> (y <= y')%Z ->
  exists g g_more_syllables g_more_sentences,
    _flesch_kincaid_grade s w y = inr g
    /\ _flesch_kincaid_grade s w y' = inr g_more_syllables
    /\ _flesch_kincaid_grade s' w y = inr g_more_sentences
    /\ (g <= g_more_syllables)%Q
    /\ (g_more_sentences <= g)%Q
    /\ _flesch_kincaid_grade 0 w y = inr 0%Q
    /\ _flesch_kincaid_grade s 0 y = inr 0%Q.
Proof.
  intros Hs Hss Hw Hy.
  rewrite !_flesch_kincaid_grade_value by lia.
  eexists _, _, _. split; [reflexivity|]. split; [reflexivity|].
  split; [reflexivity|].
  assert (HS : (0 < inject_Z s)%Q) by (unfold Qlt; simpl; lia).
  assert (HS' : (0 < inject_Z s')%Q) by (unfold Qlt; simpl; lia).
  assert (HW : (0 < inject_Z w)%Q) by (unfold Qlt; simpl; lia).
  assert (HSS : (inject_Z s <= inject_Z s')%Q) by (unfold Qle; simpl; lia).
  assert (HY : (inject_Z y <= inject_Z y')%Q) by (unfold Qle; simpl; lia).
  split; [|split].
  - pose proof (Qdiv_le_mono_l _ _ _ HW HY). lra.
  - assert (Hws : (inject_Z w / inject_Z s' <= inject_Z w / inject_Z s)%Q).
    { apply Qle_shift_div_l; [exact HS|].
      apply (Qmult_le_r _ _ (inject_Z s')); [exact HS'|].
      assert (E : (inject_Z w / inject_Z s' * inject_Z s * inject_Z s'
                   == inject_Z w * inject_Z s)%Q)
        by (field; intros E; rewrite E in HS'; revert HS'; apply Qlt_irrefl).
      rewrite E. apply Qmult_le_l; assumption. }
    lra.
  - unfold _flesch_kincaid_grade. cbn [Z.leb Z.compare orb].
    split; [reflexivity|].
    destruct (s <=? 0)%Z; reflexivity.
Qed.

End FleschKincaid.

Lemma flesch_kincaid_monotone_witness :
  exists g g_more_syllables g_more_sentences,
    _flesch_kincaid_grade 2 10 14 = inr g
    /\ _flesch_kincaid_grade 2 10 20 = inr g_more_syllables
    /\ _flesch_kincaid_grade 5 10 14 = inr g_more_sentences
    /\ (g <= g_more_syllables)%Q
    /\ (g_more_sentences <= g)%Q
    /\ _flesch_kincaid_grade 0 10 14 = inr 0%Q
    /\ _flesch_kincaid_grade 2 0 14 = inr 0%Q.
Proof.
  apply (flesch_kincaid_monotone 2 5 10 14 20); lia.
Defined.
